(** * slurmy: the job state machine of [tools/job.py]

    A shallow embedding of the classes [JobConfig] and [Job] and proofs of
    the properties their specification states: submission, status
    evaluation, cancellation, the retry protocol, change-tracked snapshots
    and tags.

    Python objects are mutable; a method of [Job] is a function from the job
    (its config, its local process handle and the log of the effects it had
    on the outside world) to an outcome and the job afterwards.  A raised
    exception keeps the mutations made before it.

    The exceptions modelled are those the module raises itself and the
    [AttributeError] of a method call on a missing process handle; calls
    into the outside world ([Popen], the backend, the file system,
    [pickle], the hooks) are taken to return.  Calls of the [logging]
    module are not modelled. *)

From stdpp Require Import base numbers strings gmap.

Local Open Scope Z_scope.
Local Open Scope string_scope.

(** ** Enumerations of [tools/defs.py] *)

(** Modelled from the spec: [Status] of [tools/defs.py], which is not part
    of the sources at hand.  The states are those of the state machine of
    section 4.2 of the specification. *)
Inductive Status : Set :=
  | CONFIGURED | RUNNING | FINISHED | SUCCESS | FAILED | CANCELLED.

(** Modelled from the spec: [Type] of [tools/defs.py], the enumeration
    {LOCAL, BATCH} of section 3 of the specification. *)
Inductive JobType : Set := LOCAL | BATCH.

#[global] Instance Status_eq_dec : EqDecision Status.
Proof. solve_decision. Defined.

#[global] Instance JobType_eq_dec : EqDecision JobType.
Proof. solve_decision. Defined.

(** ** Values *)

(** The identifier a backend assigns to a submitted job. *)
Definition JobId : Set := Z.

(** [exitcode] holds what [Popen.poll] returned for a local job (an
    integer) or what [backend.exitcode()] returned for a batch job (a
    string); [None] is Python's [None]. *)
Inductive ExitCode : Set :=
  | ExitInt (n : Z)
  | ExitStr (s : string).

#[global] Instance ExitCode_eq_dec : EqDecision ExitCode.
Proof. solve_decision. Defined.

(** Python's [exitcode == 0]. *)
Definition exitcode_eq_int (e : option ExitCode) (n : Z) : bool :=
  match e with
  | Some (ExitInt m) => bool_decide (m = n)
  | _ => false
  end.

(** Python's [exitcode == '0:0']. *)
Definition exitcode_eq_str (e : option ExitCode) (s : string) : bool :=
  match e with
  | Some (ExitStr t) => bool_decide (t = s)
  | _ => false
  end.

(** Python's truth value of a string that may be [None]. *)
Definition truthy (p : option string) : bool :=
  match p with
  | Some s => negb (bool_decide (s = ""))
  | None => false
  end.

(** The handle [subprocess.Popen] returns: the command line and the
    position of the spawn in the log of effects, which tells one process
    from the next. *)
Record Popen : Set := { args : list string; pid : nat }.

(** What a hook or a pickled snapshot sees of a [JobConfig]: its fields
    other than the backend and the hooks. *)
Record ConfigView : Type := {
  v_name : string;
  v_path : option string;
  v_tags : gset string;
  v_parent_tags : gset string;
  v_max_retries : Z;
  v_output : option string;
  v_type : JobType;
  v_status : Status;
  v_job_id : option JobId;
  v_n_retries : Z;
  v_exitcode : option ExitCode;
  v_update : bool
}.

(** ** The outside world

    Every effect a job has on the outside world is logged, newest first.
    What the world answers (the backend, the local process, the file
    system, a hook) is a function of that log, so that two calls may
    answer differently. *)
Inductive Event : Type :=
  | BackendSubmit
  | BackendCancel
  | BackendStatus
  | BackendExitcode
  | Spawn (command : list string)
  | Terminate (p : Popen)
  | Poll (p : Popen)
  | LogWrite (file : string) (content : string)
  | IsFile (file : string)
  | Remove (file : string)
  | PickleDump (file : string) (snapshot : ConfigView)
  | FinishedFunc (c : ConfigView)
  | SuccessFunc (c : ConfigView)
  | PostFunc (c : ConfigView)
  | Stdout (message : string).

(** The backend capability: [name], [run_script], [run_args] and [log] are
    attributes; [submit], [status] and [exitcode] are what the methods of
    the same names answer after a given history. [cancel] answers
    nothing. *)
Module Backend.
Record t : Type := {
  name : string;
  run_script : string;
  run_args : list string;
  log : string;
  submit : list Event → JobId;
  status : list Event → Status;
  exitcode : list Event → string
}.
End Backend.

(** The operating system: what [Popen.poll] and [Popen.stdout.read] answer
    for a process and [os.path.isfile] for a path, after a given history. *)
Record OS : Type := {
  poll : list Event → Popen → option Z;
  stdout_read : list Event → Popen → string;
  isfile : list Event → string → bool
}.

(** ** [JobConfig] *)

Module JobConfig.

(** The hooks are functions of the config; they may also look at the
    outside world.  The result of [post_func] is ignored. *)
Definition Hook : Type := list Event → ConfigView → bool.

(** The fields are the properties of the class, in the order of
    [_properties]; [update] is the change tag. *)
Record t : Type := {
  backend : Backend.t;
  name : string;
  path : option string;
  tags : gset string;
  parent_tags : gset string;
  success_func : option Hook;
  finished_func : option Hook;
  post_func : option (ConfigView → unit);
  max_retries : Z;
  output : option string;
  type : JobType;
  status : Status;
  job_id : option JobId;
  n_retries : Z;
  exitcode : option ExitCode;
  update : bool
}.

Definition view (c : t) : ConfigView :=
  {| v_name := name c; v_path := path c; v_tags := tags c;
     v_parent_tags := parent_tags c; v_max_retries := max_retries c;
     v_output := output c; v_type := type c; v_status := status c;
     v_job_id := job_id c; v_n_retries := n_retries c;
     v_exitcode := exitcode c; v_update := update c |}.

(** Plain assignment to the attribute [update], which is not a tracked
    property. *)
Definition set_update (v : bool) (c : t) : t :=
  {| backend := backend c; name := name c; path := path c; tags := tags c;
     parent_tags := parent_tags c; success_func := success_func c;
     finished_func := finished_func c; post_func := post_func c;
     max_retries := max_retries c; output := output c; type := type c;
     status := status c; job_id := job_id c; n_retries := n_retries c;
     exitcode := exitcode c; update := v |}.

(** Modelled from the spec: the setters that [set_update_properties] of
    [tools/utils.py] installs for the names of [_properties]; that file is
    not part of the sources at hand.  Section 3 of the specification: the
    flag is "set by any mutating field access", and section 4.1: "every
    mutating operation sets dirty=true; reads never do".  A setter
    stores the value and tags the config; the getters are the
    projections of the record.  This one is the setter of [max_retries]. *)
Definition set_max_retries (v : Z) (c : t) : t :=
  {| backend := backend c; name := name c; path := path c; tags := tags c;
     parent_tags := parent_tags c; success_func := success_func c;
     finished_func := finished_func c; post_func := post_func c;
     max_retries := v; output := output c; type := type c;
     status := status c; job_id := job_id c; n_retries := n_retries c;
     exitcode := exitcode c; update := true |}.

(** Modelled from the spec: the setter of [type], as that of
    [max_retries] above. *)
Definition set_type (v : JobType) (c : t) : t :=
  {| backend := backend c; name := name c; path := path c; tags := tags c;
     parent_tags := parent_tags c; success_func := success_func c;
     finished_func := finished_func c; post_func := post_func c;
     max_retries := max_retries c; output := output c; type := v;
     status := status c; job_id := job_id c; n_retries := n_retries c;
     exitcode := exitcode c; update := true |}.

(** Modelled from the spec: the setter of [status], as that of
    [max_retries] above. *)
Definition set_status (v : Status) (c : t) : t :=
  {| backend := backend c; name := name c; path := path c; tags := tags c;
     parent_tags := parent_tags c; success_func := success_func c;
     finished_func := finished_func c; post_func := post_func c;
     max_retries := max_retries c; output := output c; type := type c;
     status := v; job_id := job_id c; n_retries := n_retries c;
     exitcode := exitcode c; update := true |}.

(** Modelled from the spec: the setter of [job_id], as that of
    [max_retries] above. *)
Definition set_job_id (v : option JobId) (c : t) : t :=
  {| backend := backend c; name := name c; path := path c; tags := tags c;
     parent_tags := parent_tags c; success_func := success_func c;
     finished_func := finished_func c; post_func := post_func c;
     max_retries := max_retries c; output := output c; type := type c;
     status := status c; job_id := v; n_retries := n_retries c;
     exitcode := exitcode c; update := true |}.

(** Modelled from the spec: the setter of [n_retries], as that of
    [max_retries] above. *)
Definition set_n_retries (v : Z) (c : t) : t :=
  {| backend := backend c; name := name c; path := path c; tags := tags c;
     parent_tags := parent_tags c; success_func := success_func c;
     finished_func := finished_func c; post_func := post_func c;
     max_retries := max_retries c; output := output c; type := type c;
     status := status c; job_id := job_id c; n_retries := v;
     exitcode := exitcode c; update := true |}.

(** Modelled from the spec: the setter of [exitcode], as that of
    [max_retries] above. *)
Definition set_exitcode (v : option ExitCode) (c : t) : t :=
  {| backend := backend c; name := name c; path := path c; tags := tags c;
     parent_tags := parent_tags c; success_func := success_func c;
     finished_func := finished_func c; post_func := post_func c;
     max_retries := max_retries c; output := output c; type := type c;
     status := status c; job_id := job_id c; n_retries := n_retries c;
     exitcode := v; update := true |}.

(** [self.tags.add(tag)] and [self.parent_tags.add(tag)]: the set is read
    through its getter and mutated in place, which tags nothing. *)
Definition tags_add (tag : string) (c : t) : t :=
  {| backend := backend c; name := name c; path := path c;
     tags := tags c ∪ {[tag]};
     parent_tags := parent_tags c; success_func := success_func c;
     finished_func := finished_func c; post_func := post_func c;
     max_retries := max_retries c; output := output c; type := type c;
     status := status c; job_id := job_id c; n_retries := n_retries c;
     exitcode := exitcode c; update := update c |}.

Definition parent_tags_add (tag : string) (c : t) : t :=
  {| backend := backend c; name := name c; path := path c; tags := tags c;
     parent_tags := parent_tags c ∪ {[tag]};
     success_func := success_func c;
     finished_func := finished_func c; post_func := post_func c;
     max_retries := max_retries c; output := output c; type := type c;
     status := status c; job_id := job_id c; n_retries := n_retries c;
     exitcode := exitcode c; update := update c |}.

(** Modelled from the spec: [update_decorator] of [tools/utils.py], not
    part of the sources at hand.  Section 4.1 of the specification: every
    mutating operation sets the flag, and [addTag] "still marks dirty"
    when the tag is already there.  The decorated method tags the config
    and runs its body. *)
Definition update_decorator (body : t → t) (c : t) : t :=
  body (set_update true c).

Definition add_tag (tag : string) (is_parent : bool) : t → t :=
  update_decorator
    (λ c, if is_parent then parent_tags_add tag c else tags_add tag c).

(** The argument of [add_tags]: a list, tuple or set of tags, given as a
    list, or anything else, which is taken as one tag. *)
Inductive Tags : Set :=
  | Several (tags : list string)
  | Single (tag : string).

Definition add_tags (tags : Tags) (is_parent : bool) (c : t) : t :=
  match tags with
  | Several l => foldl (λ c tag, add_tag tag is_parent c) c l
  | Single tag => add_tag tag is_parent c
  end.

End JobConfig.


(** ** [Job] *)

(** A job: its config, the handle of its local process ([None] when there
    is none) and the log of its effects on the outside world. *)
Record Job : Type := {
  config : JobConfig.t;
  _local_process : option Popen;
  effects : list Event
}.

(** [Job.__init__], in a world with the history [past]. *)
Definition Job_init (c : JobConfig.t) (past : list Event) : Job :=
  {| config := c; _local_process := None; effects := past |}.

(** The exceptions of the module: the bare [Exception] it raises itself, and
    the [AttributeError] of a method call on [None]. *)
Inductive Exn : Set := Exception | AttributeError.

Inductive Outcome (A : Type) : Type :=
  | Return (a : A)
  | Raise (e : Exn).
Arguments Return {A} a.
Arguments Raise {A} e.

(** A method: the outcome and the job afterwards. *)
Definition M (A : Type) : Type := Job → Outcome A * Job.

#[global] Instance M_ret : MRet M := λ A a j, (Return a, j).

#[global] Instance M_bind : MBind M := λ A B f m j,
  match m j with
  | (Return a, j') => f a j'
  | (Raise e, j') => (Raise e, j')
  end.

Definition raise {A : Type} (e : Exn) : M A := λ j, (Raise e, j).

(** Reading an attribute of the job. *)
Definition gets {A : Type} (f : Job → A) : M A := λ j, (Return (f j), j).

(** Reading a property of the config. *)
Definition get {A : Type} (f : JobConfig.t → A) : M A :=
  gets (λ j, f (config j)).

(** Assigning to a property of the config, or mutating it. *)
Definition set (f : JobConfig.t → JobConfig.t) : M unit := λ j,
  (Return (),
   {| config := f (config j); _local_process := _local_process j;
      effects := effects j |}).

Definition set_local_process (p : option Popen) : M unit := λ j,
  (Return (),
   {| config := config j; _local_process := p; effects := effects j |}).

(** An effect on the outside world. *)
Definition emit (e : Event) : M unit := λ j,
  (Return (),
   {| config := config j; _local_process := _local_process j;
      effects := e :: effects j |}).

(** An answer of the outside world to the history so far. *)
Definition ask {A : Type} (oracle : list Event → A) : M A :=
  gets (λ j, oracle (effects j)).

(** Python's [if cond: body] for a body without result. *)
Definition when (cond : bool) (body : M unit) : M unit :=
  if cond then body else mret ().

Section Job.

Variable os : OS.

Definition add_tag (tag : string) (is_parent : bool) : M unit :=
  set (JobConfig.add_tag tag is_parent).

Definition add_tags (tags : JobConfig.Tags) (is_parent : bool) : M unit :=
  set (JobConfig.add_tags tags is_parent).

Definition has_tag (tag : string) : M bool :=
  ts ← get JobConfig.tags;
  mret (bool_decide (tag ∈ ts)).

Definition has_tags (tags : gset string) : M bool :=
  ts ← get JobConfig.tags;
  mret (negb (bool_decide (ts ∩ tags = ∅))).

Definition _get_local_command : M (list string) :=
  b ← get JobConfig.backend;
  mret ("/bin/bash" :: Backend.run_script b :: Backend.run_args b).

(** [subprocess.Popen(command, ...)]. *)
Definition spawn (command : list string) : M Popen :=
  n ← gets (λ j, length (effects j));
  emit (Spawn command);;
  mret {| args := command; pid := n |}.

Definition submit : M Status :=
  s ← get JobConfig.status;
  if bool_decide (s ≠ CONFIGURED) then raise Exception
  else
    ty ← get JobConfig.type;
    (if bool_decide (ty = LOCAL) then
       command ← _get_local_command;
       p ← spawn command;
       set_local_process (Some p)
     else
       b ← get JobConfig.backend;
       id ← ask (Backend.submit b);
       emit BackendSubmit;;
       set (JobConfig.set_job_id (Some id)));;
    set (JobConfig.set_status RUNNING);;
    get JobConfig.status.

(** [self._local_process.terminate()]. *)
Definition terminate : M unit :=
  lp ← gets _local_process;
  match lp with
  | Some p => emit (Terminate p)
  | None => raise AttributeError
  end.

(** [None] is the [return] without a value. *)
Definition cancel (clear_retry : bool) : M (option Status) :=
  s ← get JobConfig.status;
  if bool_decide (s = FAILED) then mret None
  else
    when (bool_decide (s = RUNNING))
      (ty ← get JobConfig.type;
       if bool_decide (ty = LOCAL) then terminate else emit BackendCancel);;
    set (JobConfig.set_status CANCELLED);;
    when clear_retry (set (JobConfig.set_max_retries 0));;
    s' ← get JobConfig.status;
    mret (Some s').

Definition _write_log : M unit :=
  b ← get JobConfig.backend;
  lp ← gets _local_process;
  match lp with
  | Some p =>
      content ← ask (λ past, stdout_read os past p);
      emit (LogWrite (Backend.log b) content)
  | None =>
      (* the file is opened for writing before the handle is used *)
      emit (LogWrite (Backend.log b) "");;
      raise AttributeError
  end.

Definition _get_local_status : M unit :=
  lp ← gets _local_process;
  match lp with
  | Some p =>
      code ← ask (λ past, poll os past p);
      emit (Poll p);;
      set (JobConfig.set_exitcode (ExitInt <$> code));;
      e ← get JobConfig.exitcode;
      match e with
      | None => set (JobConfig.set_status RUNNING)
      | Some _ => set (JobConfig.set_status FINISHED);; _write_log
      end
  | None => raise AttributeError
  end.

(** Calling a hook with the config. *)
Definition call (h : JobConfig.Hook) (ev : ConfigView → Event) : M bool :=
  c ← gets config;
  r ← ask (λ past, h past (JobConfig.view c));
  emit (ev (JobConfig.view c));;
  mret r.

Definition _is_success : M bool :=
  sf ← get JobConfig.success_func;
  match sf with
  | None =>
      ty ← get JobConfig.type;
      if bool_decide (ty = LOCAL) then
        e ← get JobConfig.exitcode;
        mret (exitcode_eq_int e 0)
      else
        b ← get JobConfig.backend;
        code ← ask (Backend.exitcode b);
        emit BackendExitcode;;
        set (JobConfig.set_exitcode (Some (ExitStr code)));;
        e ← get JobConfig.exitcode;
        mret (exitcode_eq_str e "0:0")
  | Some f => call f SuccessFunc
  end.

Definition _finish : M unit :=
  pf ← get JobConfig.post_func;
  match pf with
  | Some _ => c ← gets config; emit (PostFunc (JobConfig.view c))
  | None => mret ()
  end.

Definition get_status (skip_eval force_success_check : bool) : M Status :=
  if skip_eval then get JobConfig.status
  else
    s ← get JobConfig.status;
    when (bool_decide (s = RUNNING))
      (ty ← get JobConfig.type;
       if bool_decide (ty = LOCAL) then _get_local_status
       else
         ff ← get JobConfig.finished_func;
         match ff with
         | Some f =>
             fin ← call f FinishedFunc;
             if (fin : bool) then set (JobConfig.set_status FINISHED)
             else set (JobConfig.set_status RUNNING)
         | None =>
             b ← get JobConfig.backend;
             st ← ask (Backend.status b);
             emit BackendStatus;;
             set (JobConfig.set_status st)
         end);;
    s ← get JobConfig.status;
    when (bool_decide (s = FINISHED) || force_success_check)
      (ok ← _is_success;
       (if (ok : bool) then set (JobConfig.set_status SUCCESS)
        else set (JobConfig.set_status FAILED));;
       _finish);;
    get JobConfig.status.

(** Modelled from the spec: the decorator [track] of [tools/tracker.py],
    not part of the sources at hand.  The specification gives
    [updateSnapshot] no behaviour besides that of its body, so the
    decorated method is the method. *)
Definition track {A : Type} (method : M A) : M A := method.

Definition update_snapshot : M unit :=
  track
    (p ← get JobConfig.path;
     if negb (truthy p) then mret ()
     else
       u ← get JobConfig.update;
       if negb u then mret ()
       else
         get_status false false;;
         c ← gets config;
         emit (PickleDump (default "" p) (JobConfig.view c));;
         set (JobConfig.set_update false)).

Definition reset (reset_retries : bool) : M unit :=
  set (JobConfig.set_status CONFIGURED);;
  set (JobConfig.set_job_id None);;
  set_local_process None;;
  when reset_retries (set (JobConfig.set_n_retries 0));;
  b ← get JobConfig.backend;
  there ← ask (λ past, isfile os past (Backend.log b));
  emit (IsFile (Backend.log b));;
  when there (emit (Remove (Backend.log b)));;
  update_snapshot.

(** The setter of the property [type] of [Job]. *)
Definition set_type (job_type : JobType) : M unit :=
  s ← get JobConfig.status;
  if bool_decide (s ≠ CONFIGURED) then raise Exception
  else set (JobConfig.set_type job_type).

Definition _do_retry : M bool :=
  mr ← get JobConfig.max_retries;
  nr ← get JobConfig.n_retries;
  mret (bool_decide (mr > 0) && bool_decide (nr < mr)).

(** The message [_retry] prints for a running job. *)
Definition still_running : string :=
  "Job is still running, use force=True to force re-submit".

Definition _retry (force submit_ ignore_max_retries : bool)
    (job_type : option JobType) : M (option Status) :=
  let proceed : M (option Status) :=
    reset false;;
    match job_type with
    | Some ty => set_type ty
    | None => mret ()
    end;;
    n ← get JobConfig.n_retries;
    set (JobConfig.set_n_retries (n + 1));;
    when submit_ (submit;; mret ());;
    s ← get JobConfig.status;
    mret (Some s) in
  allowed ← (if ignore_max_retries then mret true else _do_retry);
  if negb allowed then mret None
  else
    s ← get JobConfig.status;
    if bool_decide (s = RUNNING) then
      if force then cancel false;; proceed
      else
        emit (Stdout still_running);;
        mret None
    else proceed.

Definition rerun (job_type : option JobType) : M unit :=
  _retry true true true job_type;;
  mret ().

End Job.

(** ** Predicates on jobs *)

(** The handle is there whenever a running local job needs it: [submit]
    stores it before it sets the status, and only [reset] drops it. *)
Definition local_handle_ok (j : Job) : Prop :=
  JobConfig.status (config j) = RUNNING →
  JobConfig.type (config j) = LOCAL →
  is_Some (_local_process j).

(** The guard of [_retry]: the budget is ignored or allows a retry. *)
Definition may_retry (ignore_max_retries : bool) (j : Job) : Prop :=
  ignore_max_retries = true ∨
  (JobConfig.max_retries (config j) > 0 ∧
   JobConfig.n_retries (config j) < JobConfig.max_retries (config j)).

(** The effect of stopping a running job: [terminate()] on the local
    process or [backend.cancel()]. *)
Definition stop_event (j : Job) : option Event :=
  match JobConfig.type (config j) with
  | LOCAL => Terminate <$> _local_process j
  | BATCH => Some BackendCancel
  end.

(** A method keeps a property of the job, whatever its outcome. *)
Definition preserves {A : Type} (P : Job → Prop) (method : M A) : Prop :=
  ∀ j, P j → P (method j).2.

(** ** States and worlds used as examples *)

Definition example_backend : Backend.t :=
  {| Backend.name := "fit"; Backend.run_script := "run_fit.sh";
     Backend.run_args := ["--fast"]; Backend.log := "fit.log";
     Backend.submit := λ past, 4200 + Z.of_nat (length past);
     Backend.status := λ _, FINISHED;
     Backend.exitcode := λ _, "0:0" |}.

Definition example_os : OS :=
  {| poll := λ _ _, Some 1; stdout_read := λ _ _, "fit failed";
     isfile := λ _ _, true |}.

Definition example_config (ty : JobType) (s : Status) (budget used : Z)
    : JobConfig.t :=
  {| JobConfig.backend := example_backend; JobConfig.name := "fit";
     JobConfig.path := Some "fit.pkl"; JobConfig.tags := {["hist"]};
     JobConfig.parent_tags := ∅; JobConfig.success_func := None;
     JobConfig.finished_func := None; JobConfig.post_func := None;
     JobConfig.max_retries := budget; JobConfig.output := None;
     JobConfig.type := ty; JobConfig.status := s; JobConfig.job_id := None;
     JobConfig.n_retries := used; JobConfig.exitcode := None;
     JobConfig.update := false |}.

Definition example_job (ty : JobType) (s : Status) (budget used : Z) : Job :=
  Job_init (example_config ty s budget used) [].

(** A local job that was submitted and is running. *)
Definition example_local_running (budget used : Z) : Job :=
  {| config :=
       JobConfig.set_status RUNNING
         (example_config LOCAL CONFIGURED budget used);
     _local_process :=
       Some {| args := ["/bin/bash"; "run_fit.sh"; "--fast"]; pid := 0 |};
     effects := [Spawn ["/bin/bash"; "run_fit.sh"; "--fast"]] |}.

(** A batch job that was submitted and is running. *)
Definition example_batch_running (budget used : Z) : Job :=
  {| config :=
       JobConfig.set_status RUNNING
         (JobConfig.set_job_id (Some 4200)
            (example_config BATCH CONFIGURED budget used));
     _local_process := None;
     effects := [BackendSubmit] |}.

(** ** The constructor of [JobConfig] *)

(** [JobConfig.__init__].  The attributes are assigned directly, which tags
    nothing; the tags go through [add_tags].  [untouched] is the value the
    attribute [update] has on an instance no tracked write has touched: the
    constructor does not assign it, so it is whatever [tools/utils.py]
    gives the class. *)
Definition JobConfig_init (untouched : bool) (backend : Backend.t)
    (path : option string) (success_func finished_func : option JobConfig.Hook)
    (post_func : option (ConfigView → unit)) (max_retries : Z)
    (tags parent_tags : option JobConfig.Tags) (job_type : JobType)
    (output : option string) : JobConfig.t :=
  let blank :=
    {| JobConfig.backend := backend; JobConfig.name := Backend.name backend;
       JobConfig.path := path; JobConfig.tags := ∅;
       JobConfig.parent_tags := ∅; JobConfig.success_func := success_func;
       JobConfig.finished_func := finished_func;
       JobConfig.post_func := post_func;
       JobConfig.max_retries := max_retries; JobConfig.output := output;
       JobConfig.type := job_type; JobConfig.status := CONFIGURED;
       JobConfig.job_id := None; JobConfig.n_retries := 0;
       JobConfig.exitcode := None; JobConfig.update := untouched |} in
  let with_tags :=
    match tags with
    | Some ts => JobConfig.add_tags ts false blank
    | None => blank
    end in
  match parent_tags with
  | Some ts => JobConfig.add_tags ts true with_tags
  | None => with_tags
  end.

(** The tags an argument of [add_tags] names. *)
Definition tags_of (ts : JobConfig.Tags) : gset string :=
  match ts with
  | JobConfig.Several l => list_to_set l
  | JobConfig.Single tag => {[tag]}
  end.

(** ** Drivers *)

(** A call of a method of [Job] by the code that drives the job. *)
Inductive Call : Type :=
  | CallSubmit
  | CallCancel (clear_retry : bool)
  | CallGetStatus (skip_eval force_success_check : bool)
  | CallUpdateSnapshot
  | CallReset (reset_retries : bool)
  | CallSetType (job_type : JobType)
  | CallRetry (force submit_ ignore_max_retries : bool)
      (job_type : option JobType)
  | CallRerun (job_type : option JobType)
  | CallAddTag (tag : string) (is_parent : bool)
  | CallAddTags (tags : JobConfig.Tags) (is_parent : bool).

(** The call, with its result dropped. *)
Definition perform (os : OS) (c : Call) : M unit :=
  match c with
  | CallSubmit => submit;; mret ()
  | CallCancel clear_retry => cancel clear_retry;; mret ()
  | CallGetStatus skip_eval force_success_check =>
      get_status os skip_eval force_success_check;; mret ()
  | CallUpdateSnapshot => update_snapshot os
  | CallReset reset_retries => reset os reset_retries
  | CallSetType job_type => set_type job_type
  | CallRetry force submit_ ignore_max_retries job_type =>
      _retry os force submit_ ignore_max_retries job_type;; mret ()
  | CallRerun job_type => rerun os job_type
  | CallAddTag tag is_parent => add_tag tag is_parent
  | CallAddTags tags is_parent => add_tags tags is_parent
  end.

(** A driver that makes the calls one after the other and goes on after an
    exception: the job after the last call. *)
Fixpoint drive (os : OS) (calls : list Call) (j : Job) : Job :=
  match calls with
  | [] => j
  | c :: calls => drive os calls (perform os c j).2
  end.

(** The calls that leave the budget alone: no [rerun], no retry that
    ignores the budget, no [cancel] that clears it. *)
Definition automatic (c : Call) : bool :=
  match c with
  | CallCancel clear_retry => negb clear_retry
  | CallRetry _ _ ignore_max_retries _ => negb ignore_max_retries
  | CallRerun _ => false
  | _ => true
  end.

(** The retries counted are within the budget. *)
Definition budget_ok (j : Job) : Prop :=
  (0 ≤ JobConfig.n_retries (config j) ≤ JobConfig.max_retries (config j))%Z.

(** A status [get_status] has nothing to evaluate for. *)
Definition settled (s : Status) : Prop := s ≠ RUNNING ∧ s ≠ FINISHED.

(** A property of the config, as a property of the job. *)
Definition on_config (Q : JobConfig.t → Prop) (j : Job) : Prop :=
  Q (config j).

(** What no method of [Job] assigns: the backend, the name, the path, the
    hooks and the output. *)
Definition static (c : JobConfig.t) :=
  (JobConfig.backend c, JobConfig.name c, JobConfig.path c,
   JobConfig.success_func c, JobConfig.finished_func c,
   JobConfig.post_func c, JobConfig.output c).

(** The events a list of effects holds that satisfy a test. *)
Definition count_events (test : Event → bool) (past : list Event) : nat :=
  length (filter (λ ev, test ev = true) past).

Definition is_pickle (ev : Event) : bool :=
  match ev with PickleDump _ _ => true | _ => false end.

Definition is_backend_call (ev : Event) : bool :=
  match ev with
  | BackendSubmit | BackendCancel | BackendStatus | BackendExitcode => true
  | _ => false
  end.

(** Every local process ends with an exit code other than 0, whenever it is
    polled. *)
Definition always_fails (os : OS) : Prop :=
  ∀ past p, ∃ code, poll os past p = Some code ∧ code ≠ 0.

(** One round of a driver's loop: evaluate the status, then retry
    automatically and submit again. *)
Definition attempt (os : OS) : M (option Status) :=
  get_status os false false;;
  _retry os false true false None.

Fixpoint attempts (os : OS) (rounds : nat) : M unit :=
  match rounds with
  | O => mret ()
  | S rounds => attempt os;; attempts os rounds
  end.

(** The calls that do not make the job a batch job. *)
Definition stays_local (c : Call) : bool :=
  match c with
  | CallSetType job_type => bool_decide (job_type = LOCAL)
  | CallRetry _ _ _ job_type | CallRerun job_type =>
      bool_decide (job_type ≠ Some BATCH)
  | _ => true
  end.

(** A local job that has called the methods of its backend [k] times. *)
Definition local_with (k : nat) (j : Job) : Prop :=
  JobConfig.type (config j) = LOCAL ∧
  count_events is_backend_call (effects j) = k.

(** ** Stepping through a method *)

#[local] Arguments submit : simpl never.
#[local] Arguments cancel : simpl never.
#[local] Arguments get_status : simpl never.
#[local] Arguments update_snapshot : simpl never.
#[local] Arguments reset : simpl never.
#[local] Arguments set_type : simpl never.
#[local] Arguments _retry : simpl never.

(** Every method unfolded down to the state it returns. *)
Ltac run :=
  unfold rerun, _retry, reset, update_snapshot, track, get_status, _finish,
    _is_success, call, _get_local_status, _write_log, cancel, terminate,
    submit, spawn, _get_local_command, set_type, _do_retry, add_tag,
    add_tags, has_tag, has_tags, when, ask, get, gets, set,
    set_local_process, emit, raise, mbind, M_bind, mret, M_ret;
  simpl.

(** The primitives only, with the methods they call left folded. *)
Ltac prim :=
  unfold when, ask, get, gets, set, set_local_process, emit, raise, mbind,
    M_bind, mret, M_ret;
  simpl.

(** Case analysis on every test the method makes. *)
Ltac branches :=
  repeat (case_match; simpl in *; simplify_eq; try congruence).

Lemma get_status_idle (os : OS) (j : Job) :
  JobConfig.status (config j) ≠ RUNNING →
  JobConfig.status (config j) ≠ FINISHED →
  get_status os false false j = (Return (JobConfig.status (config j)), j).
Proof.
  intros Hr Hf. run.
  rewrite (bool_decide_eq_false_2 _ Hr). simpl.
  rewrite (bool_decide_eq_false_2 _ Hf). simpl. reflexivity.
Qed.

(** [update_snapshot] on a job whose status needs no evaluation. *)
Lemma update_snapshot_idle (os : OS) (j : Job) :
  JobConfig.status (config j) ≠ RUNNING →
  JobConfig.status (config j) ≠ FINISHED →
  update_snapshot os j
  = (Return (),
     if truthy (JobConfig.path (config j)) && JobConfig.update (config j)
     then {| config := JobConfig.set_update false (config j);
             _local_process := _local_process j;
             effects :=
               PickleDump (default "" (JobConfig.path (config j)))
                 (JobConfig.view (config j)) :: effects j |}
     else j).
Proof.
  intros Hr Hf. unfold update_snapshot, track. prim.
  destruct (truthy (JobConfig.path (config j))); simpl; [| reflexivity].
  destruct (JobConfig.update (config j)); simpl; [| reflexivity].
  rewrite (get_status_idle os j Hr Hf). reflexivity.
Qed.

(** What [reset] leaves behind. *)
Lemma reset_spec (os : OS) (reset_retries : bool) (j : Job) :
  ∃ j',
    reset os reset_retries j = (Return (), j') ∧
    effects j `suffix_of` effects j' ∧
    _local_process j' = None ∧
    JobConfig.status (config j') = CONFIGURED ∧
    JobConfig.job_id (config j') = None ∧
    JobConfig.n_retries (config j')
    = (if reset_retries then 0 else JobConfig.n_retries (config j)) ∧
    JobConfig.type (config j') = JobConfig.type (config j) ∧
    JobConfig.max_retries (config j') = JobConfig.max_retries (config j) ∧
    JobConfig.backend (config j') = JobConfig.backend (config j).
Proof.
  unfold reset. prim.
  destruct reset_retries; simpl;
    destruct (isfile os (effects j) _); simpl;
    rewrite update_snapshot_idle by (simpl; discriminate); simpl;
    destruct (truthy (JobConfig.path (config j))); simpl.
  all: eexists; split; [reflexivity |]; simpl.
  all: split; [repeat apply suffix_cons_r; reflexivity | done].
Qed.

(** [submit] on a CONFIGURED job, as an equation. *)
Lemma submit_eq (j : Job) :
  JobConfig.status (config j) = CONFIGURED →
  submit j
  = (Return RUNNING,
     match JobConfig.type (config j) with
     | LOCAL =>
         let b := JobConfig.backend (config j) in
         let command :=
           "/bin/bash" :: Backend.run_script b :: Backend.run_args b in
         {| config := JobConfig.set_status RUNNING (config j);
            _local_process :=
              Some {| args := command; pid := length (effects j) |};
            effects := Spawn command :: effects j |}
     | BATCH =>
         let id :=
           Backend.submit (JobConfig.backend (config j)) (effects j) in
         {| config :=
              JobConfig.set_status RUNNING
                (JobConfig.set_job_id (Some id) (config j));
            _local_process := _local_process j;
            effects := BackendSubmit :: effects j |}
     end).
Proof.
  intros Hs. run. rewrite Hs. simpl.
  destruct (JobConfig.type (config j)); reflexivity.
Qed.

(** Off the CONFIGURED state [submit] and the setter of [type] raise. *)
Lemma submit_raises (j : Job) :
  JobConfig.status (config j) ≠ CONFIGURED →
  submit j = (Raise Exception, j).
Proof. intros Hs. run. by rewrite bool_decide_eq_true_2. Qed.

Lemma set_type_raises (job_type : JobType) (j : Job) :
  JobConfig.status (config j) ≠ CONFIGURED →
  set_type job_type j = (Raise Exception, j).
Proof. intros Hs. run. by rewrite bool_decide_eq_true_2. Qed.

(** What [submit] leaves behind on a CONFIGURED job. *)
Lemma submit_spec (j : Job) :
  JobConfig.status (config j) = CONFIGURED →
  ∃ j',
    submit j = (Return RUNNING, j') ∧
    effects j `suffix_of` effects j' ∧
    JobConfig.status (config j') = RUNNING ∧
    JobConfig.n_retries (config j') = JobConfig.n_retries (config j) ∧
    JobConfig.type (config j') = JobConfig.type (config j) ∧
    JobConfig.max_retries (config j') = JobConfig.max_retries (config j) ∧
    local_handle_ok j'.
Proof.
  intros Hs. rewrite (submit_eq j Hs). eexists; split; [reflexivity |].
  unfold local_handle_ok.
  destruct (JobConfig.type (config j)) eqn:Hty; simpl;
    (split; [by apply suffix_cons_r |]); rewrite ?Hty; by eauto 10.
Qed.

Lemma _do_retry_eq (j : Job) :
  _do_retry j
  = (Return
       (bool_decide (JobConfig.max_retries (config j) > 0)
        && bool_decide
             (JobConfig.n_retries (config j)
              < JobConfig.max_retries (config j))),
     j).
Proof. reflexivity. Qed.

Lemma guard_passes (ignore_max_retries : bool) (j : Job) :
  may_retry ignore_max_retries j →
  (if ignore_max_retries then mret true else _do_retry) j = (Return true, j).
Proof.
  intros [-> | [Hm Hn]]; [reflexivity |].
  destruct ignore_max_retries; [reflexivity |].
  rewrite _do_retry_eq. by rewrite !bool_decide_eq_true_2.
Qed.

Lemma guard_refuses (j : Job) :
  ¬ may_retry false j → _do_retry j = (Return false, j).
Proof.
  intros Hno. rewrite _do_retry_eq. f_equal. f_equal.
  apply andb_false_iff.
  destruct (decide (JobConfig.max_retries (config j) > 0)) as [Hm | Hm].
  - right. apply bool_decide_eq_false_2. intros Hn. apply Hno. by right.
  - left. by apply bool_decide_eq_false_2.
Qed.

(** A retry of a job that is not running and passes the guard: the job is
    reset, takes the new type if one is given, counts the retry and, if
    asked, is submitted. *)
Lemma retry_idle (os : OS) (force submit_ ignore_max_retries : bool)
    (job_type : option JobType) (j : Job) :
  JobConfig.status (config j) ≠ RUNNING →
  may_retry ignore_max_retries j →
  ∃ j',
    _retry os force submit_ ignore_max_retries job_type j
    = (Return (Some (if submit_ then RUNNING else CONFIGURED)), j') ∧
    effects j `suffix_of` effects j' ∧
    JobConfig.status (config j')
    = (if submit_ then RUNNING else CONFIGURED) ∧
    JobConfig.n_retries (config j') = JobConfig.n_retries (config j) + 1 ∧
    JobConfig.type (config j')
    = default (JobConfig.type (config j)) job_type ∧
    JobConfig.max_retries (config j') = JobConfig.max_retries (config j) ∧
    local_handle_ok j'.
Proof.
  intros Hs Hguard.
  destruct (reset_spec os false j)
    as (j1 & Hreset & Heff & Hlp & Hst & Hid & Hn & Hty & Hmax & Hb).
  unfold _retry, mbind, M_bind.
  rewrite (guard_passes _ _ Hguard). simpl. prim.
  rewrite (bool_decide_eq_false_2 _ Hs). rewrite Hreset.
  assert (Htype : ∃ j2,
    match job_type with
    | Some ty => set_type ty
    | None => λ j0, (Return (), j0)
    end j1
    = (Return (), j2) ∧
    effects j2 = effects j1 ∧
    JobConfig.status (config j2) = CONFIGURED ∧
    JobConfig.n_retries (config j2) = JobConfig.n_retries (config j) ∧
    JobConfig.type (config j2)
    = default (JobConfig.type (config j)) job_type ∧
    JobConfig.max_retries (config j2) = JobConfig.max_retries (config j)).
  { destruct job_type as [ty |]; [| by exists j1].
    unfold set_type. prim. rewrite Hst. simpl. by eexists. }
  destruct Htype as (j2 & -> & Heff2 & Hst2 & Hn2 & Hty2 & Hmax2). simpl.
  destruct submit_; simpl.
  - destruct (submit_spec
      {| config :=
           JobConfig.set_n_retries (JobConfig.n_retries (config j2) + 1)
             (config j2);
         _local_process := _local_process j2; effects := effects j2 |}
      Hst2) as (j3 & -> & Heff3 & Hst3 & Hn3 & Hty3 & Hmax3 & Hok3).
    simpl in *. exists j3. rewrite Hst3, Hn3, Hty3, Hmax3, Hn2.
    repeat split; try done.
    etrans; [exact Heff |]. by rewrite <- Heff2.
  - rewrite Hst2. eexists; split; [reflexivity |]. simpl.
    rewrite Heff2, Hst2, Hn2. repeat split; try done.
    unfold local_handle_ok. simpl. by rewrite Hst2.
Qed.

(** [cancel] on a running job whose handle is there if it is local. *)
Lemma cancel_running (j : Job) :
  JobConfig.status (config j) = RUNNING →
  local_handle_ok j →
  ∃ ev,
    stop_event j = Some ev ∧
    cancel false j
    = (Return (Some CANCELLED),
       {| config := JobConfig.set_status CANCELLED (config j);
          _local_process := _local_process j;
          effects := ev :: effects j |}).
Proof.
  intros Hs Hok. unfold stop_event. run. rewrite Hs. simpl.
  destruct (JobConfig.type (config j)) eqn:Hty; simpl.
  - destruct (Hok Hs Hty) as [p Hp]. rewrite Hp. simpl. rewrite Hp.
    eexists; split; reflexivity.
  - eexists; split; reflexivity.
Qed.

(** A forced retry of a running job is the retry of the cancelled job. *)
Lemma retry_forced_eq (os : OS) (submit_ ignore_max_retries : bool)
    (job_type : option JobType) (j j1 : Job) (r : option Status) :
  JobConfig.status (config j) = RUNNING →
  may_retry ignore_max_retries j →
  cancel false j = (Return r, j1) →
  JobConfig.status (config j1) = CANCELLED →
  _retry os true submit_ ignore_max_retries job_type j
  = _retry os false submit_ true job_type j1.
Proof.
  intros Hs Hguard Hcancel Hs1.
  unfold _retry, mbind, M_bind.
  rewrite (guard_passes _ _ Hguard). simpl. prim.
  rewrite Hs, Hs1. simpl. rewrite Hcancel. reflexivity.
Qed.

Lemma retry_forced (os : OS) (submit_ ignore_max_retries : bool)
    (job_type : option JobType) (j : Job) :
  JobConfig.status (config j) = RUNNING →
  may_retry ignore_max_retries j →
  local_handle_ok j →
  ∃ ev j',
    stop_event j = Some ev ∧
    _retry os true submit_ ignore_max_retries job_type j
    = (Return (Some (if submit_ then RUNNING else CONFIGURED)), j') ∧
    (ev :: effects j) `suffix_of` effects j' ∧
    JobConfig.status (config j')
    = (if submit_ then RUNNING else CONFIGURED) ∧
    JobConfig.n_retries (config j') = JobConfig.n_retries (config j) + 1 ∧
    JobConfig.type (config j')
    = default (JobConfig.type (config j)) job_type ∧
    JobConfig.max_retries (config j') = JobConfig.max_retries (config j) ∧
    local_handle_ok j'.
Proof.
  intros Hs Hguard Hok.
  destruct (cancel_running j Hs Hok) as (ev & Hev & Hcancel).
  rewrite (retry_forced_eq os _ _ _ _ _ _ Hs Hguard Hcancel eq_refl).
  edestruct (retry_idle os false submit_ true job_type) as (j' & Hr & Hrest);
    [| by left | exists ev, j'; split; [exact Hev | split; [exact Hr |]]].
  - simpl. discriminate.
  - exact Hrest.
Qed.

(** A retry of a running job without [force] prints its message and
    returns; one that the budget refuses returns at once. *)
Lemma retry_running_unforced (os : OS) (submit_ ignore_max_retries : bool)
    (job_type : option JobType) (j : Job) :
  JobConfig.status (config j) = RUNNING →
  _retry os false submit_ ignore_max_retries job_type j
  = (Return None,
     if bool_decide (may_retry ignore_max_retries j)
     then {| config := config j; _local_process := _local_process j;
             effects := Stdout still_running :: effects j |}
     else j).
Proof.
  intros Hs. case_bool_decide as Hguard.
  - unfold _retry, mbind, M_bind.
    rewrite (guard_passes _ _ Hguard). simpl. prim. by rewrite Hs.
  - destruct ignore_max_retries; [destruct Hguard; by left |].
    unfold _retry, mbind, M_bind. by rewrite (guard_refuses _ Hguard).
Qed.

(** A retry the budget refuses. *)
Lemma retry_refused (os : OS) (force submit_ : bool)
    (job_type : option JobType) (j : Job) :
  ¬ may_retry false j →
  _retry os force submit_ false job_type j = (Return None, j).
Proof.
  intros Hguard. unfold _retry, mbind, M_bind.
  by rewrite (guard_refuses _ Hguard).
Qed.

(** On a FAILED job [cancel] returns at once, without a value. *)
Lemma cancel_failed_eq (clear_retry : bool) (j : Job) :
  JobConfig.status (config j) = FAILED →
  cancel clear_retry j = (Return None, j).
Proof. intros Hs. run. by rewrite Hs. Qed.

(** With the handle there, [get_status] returns. *)
Lemma get_status_returns (os : OS) (force_success_check : bool) (j : Job) :
  local_handle_ok j →
  ∃ j', get_status os false force_success_check j
        = (Return (JobConfig.status (config j')), j').
Proof.
  intros Hok. run.
  destruct (JobConfig.status (config j)) eqn:Hs; simpl.
  2: destruct (JobConfig.type (config j)) eqn:Hty; simpl;
       [destruct (Hok Hs Hty) as [p Hp]; rewrite Hp; simpl |].
  all: branches.
  all: lazymatch goal with |- ∃ j', (_, ?x) = _ => by exists x end.
Qed.

(** ** The handle of the local process

    [local_handle_ok] holds of a job made from a fresh config, and every
    method keeps it. *)

Lemma Job_init_handle_ok (c : JobConfig.t) (past : list Event) :
  JobConfig.status c = CONFIGURED → local_handle_ok (Job_init c past).
Proof. intros Hs Hrun. simpl in Hrun. congruence. Qed.

Lemma submit_keeps_handle : preserves local_handle_ok submit.
Proof.
  intros j Hok.
  destruct (decide (JobConfig.status (config j) = CONFIGURED)) as [Hs | Hs].
  - by destruct (submit_spec j Hs) as (j' & -> & _ & _ & _ & _ & _ & Hok').
  - by rewrite (submit_raises j Hs).
Qed.

Lemma set_type_keeps_handle (job_type : JobType) :
  preserves local_handle_ok (set_type job_type).
Proof.
  intros j Hok. unfold set_type. prim. case_bool_decide as Hs; simpl.
  - exact Hok.
  - intros Hrun. simpl in Hrun. congruence.
Qed.

Lemma cancel_keeps_handle (clear_retry : bool) :
  preserves local_handle_ok (cancel clear_retry).
Proof.
  intros j Hok. unfold local_handle_ok in *. run.
  destruct (JobConfig.status (config j)) eqn:Hs; simpl;
    try (by destruct clear_retry).
  - destruct (JobConfig.type (config j)) eqn:Hty; simpl.
    + destruct (Hok eq_refl eq_refl) as [p Hp]. rewrite Hp. simpl.
      by destruct clear_retry.
    + by destruct clear_retry.
  - intros Hrun. congruence.
Qed.

Lemma get_status_keeps_handle (os : OS)
    (skip_eval force_success_check : bool) :
  preserves local_handle_ok (get_status os skip_eval force_success_check).
Proof.
  intros j Hok. destruct skip_eval; [exact Hok |].
  unfold local_handle_ok in *. run.
  destruct (JobConfig.status (config j)) eqn:Hs; simpl.
  2: destruct (JobConfig.type (config j)) eqn:Hty; simpl;
       [destruct (Hok eq_refl eq_refl) as [p Hp]; rewrite Hp; simpl |].
  all: branches; intros; simpl in *; try congruence; eauto.
Qed.

Lemma update_snapshot_keeps_handle (os : OS) :
  preserves local_handle_ok (update_snapshot os).
Proof.
  intros j Hok. unfold update_snapshot, track. prim.
  destruct (truthy (JobConfig.path (config j))); simpl; [| exact Hok].
  destruct (JobConfig.update (config j)); simpl; [| exact Hok].
  pose proof (get_status_keeps_handle os false false j Hok) as Hok'.
  destruct (get_status os false false j) as [[[] | e] j1]; simpl in *;
    exact Hok'.
Qed.

Lemma reset_keeps_handle (os : OS) (reset_retries : bool) :
  preserves local_handle_ok (reset os reset_retries).
Proof.
  intros j _.
  destruct (reset_spec os reset_retries j) as (j' & -> & _ & _ & Hs & _).
  intros Hrun. simpl in Hrun. congruence.
Qed.

Lemma _retry_keeps_handle (os : OS) (force submit_ ignore_max_retries : bool)
    (job_type : option JobType) :
  preserves local_handle_ok
    (_retry os force submit_ ignore_max_retries job_type).
Proof.
  intros j Hok.
  destruct (decide (may_retry ignore_max_retries j)) as [Hguard | Hguard].
  - destruct (decide (JobConfig.status (config j) = RUNNING)) as [Hs | Hs].
    + destruct force.
      * by destruct (retry_forced os submit_ ignore_max_retries job_type j
                       Hs Hguard Hok)
          as (ev & j' & _ & -> & _ & _ & _ & _ & _ & Hok').
      * rewrite (retry_running_unforced os _ _ _ j Hs).
        by rewrite bool_decide_eq_true_2.
    + by destruct (retry_idle os force submit_ ignore_max_retries job_type j
                     Hs Hguard)
        as (j' & -> & _ & _ & _ & _ & _ & Hok').
  - destruct ignore_max_retries; [destruct Hguard; by left |].
    by rewrite (retry_refused os _ _ _ j Hguard).
Qed.

Lemma rerun_keeps_handle (os : OS) (job_type : option JobType) :
  preserves local_handle_ok (rerun os job_type).
Proof.
  intros j Hok. unfold rerun, mbind, M_bind.
  pose proof (_retry_keeps_handle os true true true job_type j Hok) as Hok'.
  destruct (_retry os true true true job_type j) as [[r | e] j']; exact Hok'.
Qed.

Lemma add_tag_keeps_handle (tag : string) (is_parent : bool) :
  preserves local_handle_ok (add_tag tag is_parent).
Proof.
  intros j Hok. unfold local_handle_ok in *. run. by destruct is_parent.
Qed.

(** ** Submission *)

(** C1: [submit] on a CONFIGURED job returns RUNNING and leaves the job
    RUNNING.  A BATCH job stores the identifier [backend.submit()]
    answered; a LOCAL job spawns its process and keeps the handle, the
    backend is not called and [job_id] is as before. *)
Theorem submit_configured (j : Job) :
  JobConfig.status (config j) = CONFIGURED →
  (submit j).1 = Return RUNNING ∧
  JobConfig.status (config (submit j).2) = RUNNING ∧
  match JobConfig.type (config j) with
  | BATCH =>
      let id := Backend.submit (JobConfig.backend (config j)) (effects j) in
      (submit j).2
      = {| config :=
             JobConfig.set_status RUNNING
               (JobConfig.set_job_id (Some id) (config j));
           _local_process := _local_process j;
           effects := BackendSubmit :: effects j |}
  | LOCAL =>
      let b := JobConfig.backend (config j) in
      let command :=
        "/bin/bash" :: Backend.run_script b :: Backend.run_args b in
      (submit j).2
      = {| config := JobConfig.set_status RUNNING (config j);
           _local_process :=
             Some {| args := command; pid := length (effects j) |};
           effects := Spawn command :: effects j |}
  end.
Proof.
  intros Hs. rewrite (submit_eq j Hs).
  destruct (JobConfig.type (config j)); simpl; auto.
Qed.

Lemma submit_configured_witness :
  let j := example_job BATCH CONFIGURED 0 0 in
  (submit j).1 = Return RUNNING ∧
  JobConfig.status (config (submit j).2) = RUNNING ∧
  JobConfig.job_id (config (submit j).2) = Some 4200.
Proof.
  destruct (submit_configured (example_job BATCH CONFIGURED 0 0) eq_refl)
    as (Hret & Hstatus & Hjob).
  split; [exact Hret | split; [exact Hstatus |]].
  exact (f_equal (λ j', JobConfig.job_id (config j')) Hjob).
Defined.

(** C7: off the CONFIGURED state [submit] raises, and so does the setter of
    [type]; the job is as before when they raise. *)
Theorem not_configured_raises (j : Job) (job_type : JobType) :
  JobConfig.status (config j) ≠ CONFIGURED →
  submit j = (Raise Exception, j) ∧
  set_type job_type j = (Raise Exception, j).
Proof.
  intros Hs. split; [by apply submit_raises | by apply set_type_raises].
Qed.

Lemma not_configured_raises_witness :
  let j := example_local_running 2 0 in
  submit j = (Raise Exception, j) ∧ set_type BATCH j = (Raise Exception, j).
Proof.
  apply (not_configured_raises (example_local_running 2 0) BATCH).
  simpl. discriminate.
Defined.

(** ** Status evaluation *)

(** C4: [get_status] with [skip_eval] returns the stored status and leaves
    the job as it is: every field of the config, the handle of the local
    process and the outside world. *)
Theorem get_status_skip_eval_pure (os : OS) (force_success_check : bool)
    (j : Job) :
  get_status os true force_success_check j
  = (Return (JobConfig.status (config j)), j).
Proof. reflexivity. Qed.

(** C2: [get_status] on a FINISHED job.  Without [success_func] a LOCAL
    job is a success exactly when its stored exit code is the integer 0, a
    BATCH job exactly when [backend.exitcode()] answers "0:0"; with a
    [success_func] its answer decides, whatever the exit code.  The job
    becomes SUCCESS on a success and FAILED otherwise, and that status is
    returned. *)
Theorem get_status_finished (os : OS) (force_success_check : bool) (j : Job) :
  JobConfig.status (config j) = FINISHED →
  let c := config j in
  let success :=
    match JobConfig.success_func c with
    | Some f => f (effects j) (JobConfig.view c)
    | None =>
        match JobConfig.type c with
        | LOCAL => bool_decide (JobConfig.exitcode c = Some (ExitInt 0))
        | BATCH =>
            bool_decide
              (Backend.exitcode (JobConfig.backend c) (effects j) = "0:0")
        end
    end in
  let r := get_status os false force_success_check j in
  r.1 = Return (if success then SUCCESS else FAILED) ∧
  JobConfig.status (config r.2) = (if success then SUCCESS else FAILED).
Proof.
  intros Hs. run. repeat (rewrite Hs; simpl).
  destruct (JobConfig.success_func (config j)) as [f |]; simpl.
  - destruct (f _ _); simpl;
      destruct (JobConfig.post_func (config j)); simpl; auto.
  - destruct (JobConfig.type (config j)); simpl.
    + destruct (JobConfig.exitcode (config j)) as [[n | s] |]; simpl;
        try (destruct (JobConfig.post_func (config j)); simpl; auto; fail).
      destruct (decide (n = 0)) as [-> | Hn]; simpl.
      * destruct (JobConfig.post_func (config j)); simpl; auto.
      * rewrite (bool_decide_eq_false_2 (n = 0)) by exact Hn.
        rewrite (bool_decide_eq_false_2 (Some (ExitInt n) = _)) by congruence.
        simpl. destruct (JobConfig.post_func (config j)); simpl; auto.
    + destruct (bool_decide (Backend.exitcode _ _ = "0:0")); simpl;
        destruct (JobConfig.post_func (config j)); simpl; auto.
Qed.

Lemma get_status_finished_witness :
  let j := example_job BATCH FINISHED 0 0 in
  (get_status example_os false false j).1 = Return SUCCESS ∧
  JobConfig.status (config (get_status example_os false false j).2) = SUCCESS.
Proof.
  apply (get_status_finished example_os false (example_job BATCH FINISHED 0 0)).
  reflexivity.
Defined.

(** ** Cancellation *)

(** C5: on a FAILED job [cancel] returns without a value, where its
    docstring promises the job status: the caller gets [None], not
    FAILED. *)
Theorem cancel_failed_returns_no_status :
  let j := example_job BATCH FAILED 0 0 in
  cancel false j = (Return None, j) ∧
  (cancel false j).1
  ≠ Return (Some (JobConfig.status (config (cancel false j).2))).
Proof.
  simpl. rewrite cancel_failed_eq by reflexivity.
  split; [reflexivity | discriminate].
Qed.

(** The other branch of [cancel]: a job that is not FAILED, and whose
    handle is there if it is a running local job, ends CANCELLED and
    [cancel] returns CANCELLED. *)
Lemma cancel_not_failed (clear_retry : bool) (j : Job) :
  JobConfig.status (config j) ≠ FAILED →
  local_handle_ok j →
  (cancel clear_retry j).1 = Return (Some CANCELLED) ∧
  JobConfig.status (config (cancel clear_retry j).2) = CANCELLED.
Proof.
  intros Hs Hok. run.
  rewrite bool_decide_eq_false_2 by exact Hs.
  case_bool_decide as Hrun; simpl.
  - case_bool_decide as Hty; simpl.
    + destruct (Hok Hrun Hty) as [p ->]. simpl.
      destruct clear_retry; simpl; auto.
    + destruct clear_retry; simpl; auto.
  - destruct clear_retry; simpl; auto.
Qed.

(** A job made from the config of a running local job, as one read back
    from a snapshot, has no handle: [cancel] raises on it. *)
Lemma cancel_without_handle_raises :
  let j := Job_init (example_config LOCAL RUNNING 0 0) [] in
  ¬ local_handle_ok j ∧ cancel false j = (Raise AttributeError, j).
Proof.
  split; [| reflexivity].
  intros Hok. by destruct (Hok eq_refl eq_refl) as [p Hp].
Qed.

(** C10: on a FAILED job [cancel] with [clear_retry] returns at once:
    [max_retries] keeps its value, as does all the rest of the job, and the
    retry budget stays in force. *)
Theorem cancel_failed_keeps_max_retries (j : Job) :
  JobConfig.status (config j) = FAILED →
  cancel true j = (Return None, j) ∧
  JobConfig.max_retries (config (cancel true j).2)
  = JobConfig.max_retries (config j).
Proof.
  intros Hs. by rewrite (cancel_failed_eq true j Hs).
Qed.

Lemma cancel_failed_keeps_max_retries_witness :
  let j := example_job BATCH FAILED 3 1 in
  cancel true j = (Return None, j) ∧
  JobConfig.max_retries (config (cancel true j).2) = 3.
Proof.
  apply (cancel_failed_keeps_max_retries (example_job BATCH FAILED 3 1)).
  reflexivity.
Defined.

(** ** Retry *)

(** C3: [_do_retry] answers true exactly when [max_retries > 0] and
    [n_retries < max_retries], and changes nothing.  A retry that does not
    ignore the budget and finds the answer false returns with the job as
    it was.  A retry that passes the guard, of a job that is not running or
    with [force], counts one more retry.  [rerun] passes whatever the
    budget: it counts one more retry and leaves the job RUNNING.  The job
    is one that holds the handle of its running local process
    ([local_handle_ok], which every method keeps). *)
Theorem retry_budget (os : OS) (force submit_ : bool)
    (job_type : option JobType) (j : Job) :
  let budget := JobConfig.max_retries (config j) in
  let used := JobConfig.n_retries (config j) in
  (∃ allowed,
     _do_retry j = (Return allowed, j) ∧
     (allowed = true ↔ budget > 0 ∧ used < budget)) ∧
  (¬ (budget > 0 ∧ used < budget) →
   _retry os force submit_ false job_type j = (Return None, j)) ∧
  (∀ ignore_max_retries,
     ignore_max_retries = true ∨ (budget > 0 ∧ used < budget) →
     (JobConfig.status (config j) = RUNNING → force = true) →
     local_handle_ok j →
     ∃ s j',
       _retry os force submit_ ignore_max_retries job_type j
       = (Return (Some s), j') ∧
       JobConfig.n_retries (config j') = used + 1) ∧
  (local_handle_ok j →
   ∃ j',
     rerun os job_type j = (Return (), j') ∧
     JobConfig.n_retries (config j') = used + 1 ∧
     JobConfig.status (config j') = RUNNING).
Proof.
  simpl. repeat split.
  - eexists. split; [apply _do_retry_eq |].
    rewrite andb_true_iff, !bool_decide_eq_true. done.
  - intros Hno. apply retry_refused. by intros [? | ?].
  - intros ignore_max_retries Hguard Hforce Hok.
    destruct (decide (JobConfig.status (config j) = RUNNING)) as [Hs | Hs].
    + rewrite (Hforce Hs).
      destruct (retry_forced os submit_ ignore_max_retries job_type j
                  Hs Hguard Hok) as (ev & j' & _ & Hr & _ & _ & Hn & _).
      eauto.
    + destruct (retry_idle os force submit_ ignore_max_retries job_type j
                  Hs Hguard) as (j' & Hr & _ & _ & Hn & _).
      eauto.
  - intros Hok. unfold rerun, mbind, M_bind.
    destruct (decide (JobConfig.status (config j) = RUNNING)) as [Hs | Hs].
    + destruct (retry_forced os true true job_type j Hs (or_introl eq_refl)
                  Hok) as (ev & j' & _ & Hr & _ & Hst & Hn & _).
      rewrite Hr. simpl. eauto.
    + destruct (retry_idle os true true true job_type j Hs
                  (or_introl eq_refl)) as (j' & Hr & _ & Hst & Hn & _).
      rewrite Hr. simpl. eauto.
Qed.

Lemma retry_budget_witness :
  let j := example_local_running 2 2 in
  _retry example_os true true false None j = (Return None, j) ∧
  ∃ j',
    rerun example_os None j = (Return (), j') ∧
    JobConfig.n_retries (config j') = 3 ∧
    JobConfig.status (config j') = RUNNING.
Proof.
  destruct (retry_budget example_os true true None (example_local_running 2 2))
    as (_ & Hrefused & _ & Hrerun).
  split.
  - apply Hrefused. simpl. lia.
  - apply Hrerun. intros _ _. simpl. by eexists.
Defined.

(** A retry with [force] that does not ignore the budget is still refused
    by it: the running job is neither cancelled nor retried.  Here the
    budget is 0, the default of [max_retries]. *)
Lemma forced_retry_refused_by_budget :
  let j := example_batch_running 0 0 in
  let r := _retry example_os true true false None j in
  JobConfig.status (config j) = RUNNING ∧
  r = (Return None, j) ∧
  (BackendCancel ∉ effects r.2) ∧
  JobConfig.status (config r.2) = RUNNING ∧
  JobConfig.n_retries (config r.2) = JobConfig.n_retries (config j).
Proof.
  simpl. repeat split.
  intros Hin. apply list_elem_of_In in Hin. simpl in Hin.
  destruct Hin as [Hin | []]. discriminate Hin.
Qed.

(** C8, amended: a retry of a RUNNING job.  Without [force] it returns
    nothing and leaves the config and the handle as they were; the outside
    world sees at most the printed message.  With [force], and if the
    guard of the budget is passed, the job is stopped first
    ([terminate()] on the handle the running local job holds, or
    [backend.cancel()], is the first new effect) and the retry goes on:
    one more retry is counted and the job ends RUNNING if it is submitted,
    CONFIGURED if not. *)
Theorem retry_while_running (os : OS) (submit_ ignore_max_retries : bool)
    (job_type : option JobType) (j : Job) :
  JobConfig.status (config j) = RUNNING →
  (let r := _retry os false submit_ ignore_max_retries job_type j in
   r.1 = Return None ∧
   config r.2 = config j ∧
   _local_process r.2 = _local_process j ∧
   (effects r.2 = effects j ∨
    ∃ message, effects r.2 = Stdout message :: effects j)) ∧
  (may_retry ignore_max_retries j →
   local_handle_ok j →
   ∃ ev j',
     stop_event j = Some ev ∧
     _retry os true submit_ ignore_max_retries job_type j
     = (Return (Some (JobConfig.status (config j'))), j') ∧
     (ev :: effects j) `suffix_of` effects j' ∧
     JobConfig.n_retries (config j') = JobConfig.n_retries (config j) + 1 ∧
     JobConfig.status (config j')
     = (if submit_ then RUNNING else CONFIGURED)).
Proof.
  intros Hs. split.
  - simpl. rewrite (retry_running_unforced os _ _ _ j Hs).
    case_bool_decide; simpl; eauto 10.
  - intros Hguard Hok.
    destruct (retry_forced os submit_ ignore_max_retries job_type j
                Hs Hguard Hok)
      as (ev & j' & Hev & Hr & Heff & Hst & Hn & _).
    exists ev, j'. rewrite Hst. auto.
Qed.

Lemma retry_while_running_witness :
  let j := example_local_running 2 0 in
  (_retry example_os false true false None j).1 = Return None ∧
  config (_retry example_os false true false None j).2 = config j ∧
  ∃ j',
    _retry example_os true true false None j = (Return (Some RUNNING), j') ∧
    JobConfig.n_retries (config j') = 1.
Proof.
  destruct (retry_while_running example_os true false None
              (example_local_running 2 0) eq_refl)
    as ((Hnone & Hconfig & _) & Hforced).
  split; [exact Hnone | split; [exact Hconfig |]].
  destruct Hforced as (ev & j' & _ & Hr & _ & Hn & Hst).
  - right. simpl. lia.
  - intros _ _. simpl. by eexists.
  - exists j'. simpl in Hst. rewrite Hst in Hr. split; [exact Hr | exact Hn].
Defined.

(** ** Snapshots *)

(** C6: [update_snapshot] writes exactly when the path is set and the
    config is tagged.  If either fails it returns with the job as it was,
    and nothing is written.  If both hold, [get_status()] is evaluated
    first; the config it leaves is what [pickle.dump] writes to the path,
    and the tag is cleared after the write.  [get_status()] returns for
    every job that holds the handle of its running local process; were it
    to raise, the exception would pass through and nothing be written. *)
Theorem update_snapshot_writes_iff_tagged (os : OS) (j : Job) :
  (truthy (JobConfig.path (config j)) = false ∨
   JobConfig.update (config j) = false →
   update_snapshot os j = (Return (), j)) ∧
  (truthy (JobConfig.path (config j)) = true →
   JobConfig.update (config j) = true →
   ∃ file,
     JobConfig.path (config j) = Some file ∧
     match get_status os false false j with
     | (Return _, j1) =>
         update_snapshot os j
         = (Return (),
            {| config := JobConfig.set_update false (config j1);
               _local_process := _local_process j1;
               effects :=
                 PickleDump file (JobConfig.view (config j1)) :: effects j1 |})
     | (Raise e, j1) => update_snapshot os j = (Raise e, j1)
     end ∧
     (local_handle_ok j →
      ∃ j1, get_status os false false j
            = (Return (JobConfig.status (config j1)), j1))).
Proof.
  split.
  - intros Hno. unfold update_snapshot, track. prim.
    destruct (truthy (JobConfig.path (config j))); simpl; [| reflexivity].
    destruct Hno as [Hno | Hno]; [discriminate Hno | by rewrite Hno].
  - intros Hpath Htag.
    destruct (JobConfig.path (config j)) as [file |] eqn:Hfile;
      [| discriminate Hpath].
    exists file. split; [reflexivity |]. split.
    + unfold update_snapshot, track. prim.
      simpl in Hpath. rewrite Hfile. simpl. rewrite Hpath. simpl.
      rewrite Htag. simpl.
      by destruct (get_status os false false j) as [[s | e] j1].
    + apply get_status_returns.
Qed.

Lemma update_snapshot_writes_iff_tagged_witness :
  let j := example_batch_running 0 0 in
  ∃ snapshot j',
    update_snapshot example_os j = (Return (), j') ∧
    effects j'
    = [PickleDump "fit.pkl" snapshot; BackendExitcode; BackendStatus;
       BackendSubmit] ∧
    v_status snapshot = SUCCESS ∧
    JobConfig.update (config j') = false.
Proof.
  destruct (update_snapshot_writes_iff_tagged example_os
              (example_batch_running 0 0))
    as (_ & Hwrites).
  destruct Hwrites as (file & Hfile & Hupdate & _).
  - reflexivity.
  - reflexivity.
  - injection Hfile as <-. simpl in Hupdate.
    eexists _, _. split; [exact Hupdate |]. by repeat split.
Defined.

(** ** Tags *)

(** Python's [set.add]: the size of the set afterwards. *)
Lemma size_add (X : gset string) (tag : string) :
  size (X ∪ {[tag]}) = if bool_decide (tag ∈ X) then size X else S (size X).
Proof.
  case_bool_decide as Hin.
  - by rewrite (union_comm_L X), subseteq_union_1_L
      by (by apply singleton_subseteq_l).
  - rewrite size_union by (by apply disjoint_singleton_r).
    rewrite size_singleton. lia.
Qed.

(** C9: [add_tag] tags the config whether or not the tag was there; the set
    it adds to (the parent tags when [is_parent], the tags otherwise) keeps
    its size when it had the tag and grows by one when it had not. *)
Theorem add_tag_size (tag : string) (is_parent : bool) (j : Job) :
  let target c :=
    if is_parent then JobConfig.parent_tags c else JobConfig.tags c in
  let j' := (add_tag tag is_parent j).2 in
  JobConfig.update (config j') = true ∧
  size (target (config j'))
  = if bool_decide (tag ∈ target (config j))
    then size (target (config j))
    else S (size (target (config j))).
Proof.
  run. split; [by destruct is_parent |].
  destruct is_parent; simpl; apply size_add.
Qed.

(** ** What the methods keep of the config *)

Lemma preserves_bind {A B : Type} (P : Job → Prop) (m : M A) (f : A → M B) :
  preserves P m → (∀ a, preserves P (f a)) → preserves P (m ≫= f).
Proof.
  intros Hm Hf j Hj. unfold mbind, M_bind.
  specialize (Hm j Hj). destruct (m j) as [[a | e] j1]; simpl in *.
  - by apply Hf.
  - exact Hm.
Qed.

Lemma preserves_same {A : Type} (P : Job → Prop) (m : M A) :
  (∀ j, (m j).2 = j) → preserves P m.
Proof. intros Hsame j Hj. by rewrite Hsame. Qed.

Section Frame.

Variable Q : JobConfig.t → Prop.

Hypothesis Q_status : ∀ v c, Q c → Q (JobConfig.set_status v c).
Hypothesis Q_job_id : ∀ v c, Q c → Q (JobConfig.set_job_id v c).
Hypothesis Q_exitcode : ∀ v c, Q c → Q (JobConfig.set_exitcode v c).
Hypothesis Q_n_retries : ∀ v c, Q c → Q (JobConfig.set_n_retries v c).
Hypothesis Q_type : ∀ v c, Q c → Q (JobConfig.set_type v c).
Hypothesis Q_max_retries : ∀ v c, Q c → Q (JobConfig.set_max_retries v c).
Hypothesis Q_update : ∀ v c, Q c → Q (JobConfig.set_update v c).
Hypothesis Q_add_tag : ∀ tag p c, Q c → Q (JobConfig.add_tag tag p c).

Lemma set_frame (f : JobConfig.t → JobConfig.t) :
  (∀ c, Q c → Q (f c)) → preserves (on_config Q) (set f).
Proof. intros Hf j Hj. by apply Hf. Qed.

Lemma emit_frame (ev : Event) : preserves (on_config Q) (emit ev).
Proof. by intros j Hj. Qed.

Lemma set_local_process_frame (p : option Popen) :
  preserves (on_config Q) (set_local_process p).
Proof. by intros j Hj. Qed.

(** A method built from the primitives keeps [Q] if its assignments do. *)
Ltac frame :=
  repeat first
    [ solve [eauto 2]
    | apply preserves_bind; [| intros ?]
    | apply emit_frame
    | apply set_local_process_frame
    | apply set_frame; intros ? ?; eauto; fail
    | apply preserves_same; intros ?; reflexivity
    | match goal with
      | |- preserves _ (match ?x with _ => _ end) => destruct x
      | |- preserves _ (when ?x _) => destruct x
      end ].

Lemma submit_frame : preserves (on_config Q) submit.
Proof. unfold submit, spawn, _get_local_command, ask. frame. Qed.

Lemma cancel_frame (clear_retry : bool) :
  preserves (on_config Q) (cancel clear_retry).
Proof. unfold cancel, terminate. frame. Qed.

Lemma get_status_frame (os : OS) (skip_eval force_success_check : bool) :
  preserves (on_config Q) (get_status os skip_eval force_success_check).
Proof.
  unfold get_status, _get_local_status, _write_log, _is_success, _finish,
    call, ask.
  frame.
Qed.

Lemma update_snapshot_frame (os : OS) :
  preserves (on_config Q) (update_snapshot os).
Proof.
  pose proof (get_status_frame os false false).
  unfold update_snapshot, track. frame.
Qed.

Lemma reset_frame (os : OS) (reset_retries : bool) :
  preserves (on_config Q) (reset os reset_retries).
Proof.
  pose proof (update_snapshot_frame os).
  unfold reset, ask. frame.
Qed.

Lemma set_type_frame (job_type : JobType) :
  preserves (on_config Q) (set_type job_type).
Proof. unfold set_type. frame. Qed.

Lemma _retry_frame (os : OS) (force submit_ ignore_max_retries : bool)
    (job_type : option JobType) :
  preserves (on_config Q)
    (_retry os force submit_ ignore_max_retries job_type).
Proof.
  pose proof (reset_frame os false).
  pose proof (cancel_frame false).
  pose proof submit_frame.
  pose proof set_type_frame.
  unfold _retry, _do_retry. cbv zeta. frame.
Qed.

Lemma add_tags_frame (tags : JobConfig.Tags) (is_parent : bool) :
  preserves (on_config Q) (add_tags tags is_parent).
Proof.
  apply set_frame. destruct tags as [l | tag]; simpl; [| by auto].
  induction l as [| tag l IH]; simpl; auto.
Qed.

Lemma perform_frame (os : OS) (c : Call) :
  preserves (on_config Q) (perform os c).
Proof.
  pose proof submit_frame.
  pose proof cancel_frame.
  pose proof (get_status_frame os).
  pose proof (update_snapshot_frame os).
  pose proof (reset_frame os).
  pose proof set_type_frame.
  pose proof (_retry_frame os).
  pose proof add_tags_frame.
  destruct c; unfold perform, rerun, add_tag; frame.
Qed.

Lemma drive_frame (os : OS) (calls : list Call) :
  ∀ j, Q (config j) → Q (config (drive os calls j)).
Proof.
  induction calls as [| c calls IH]; intros j Hj; simpl; [exact Hj |].
  apply IH. by apply (perform_frame os c).
Qed.

End Frame.

(** ** Reset *)

(** X1: [reset] returns with the job CONFIGURED, without job id and without
    process handle; the retries counted are zeroed if [reset_retries] and
    kept if not; the type, the budget and the tags are as before. *)
Theorem reset_leaves_configured (os : OS) (reset_retries : bool) (j : Job) :
  let r := reset os reset_retries j in
  r.1 = Return () ∧
  JobConfig.status (config r.2) = CONFIGURED ∧
  JobConfig.job_id (config r.2) = None ∧
  _local_process r.2 = None ∧
  JobConfig.n_retries (config r.2)
  = (if reset_retries then 0 else JobConfig.n_retries (config j)) ∧
  JobConfig.type (config r.2) = JobConfig.type (config j) ∧
  JobConfig.max_retries (config r.2) = JobConfig.max_retries (config j) ∧
  JobConfig.tags (config r.2) = JobConfig.tags (config j) ∧
  JobConfig.parent_tags (config r.2) = JobConfig.parent_tags (config j).
Proof.
  simpl. unfold reset. prim.
  destruct reset_retries; simpl;
    destruct (isfile os (effects j) _); simpl;
    rewrite update_snapshot_idle by (simpl; discriminate); simpl;
    by destruct (truthy (JobConfig.path (config j))).
Qed.

(** X2: what [reset] does to the outside world.  It asks whether the log
    file of the backend exists and removes it only if it does; then, the
    config being tagged by the assignments, it writes the snapshot if a
    path is set, and the snapshot shows the job CONFIGURED.  With a path
    the tag is cleared afterwards, without one it stays. *)
Theorem reset_effects (os : OS) (reset_retries : bool) (j : Job) :
  let log := Backend.log (JobConfig.backend (config j)) in
  let after := (reset os reset_retries j).2 in
  let checked :=
    if isfile os (effects j) log
    then Remove log :: IsFile log :: effects j
    else IsFile log :: effects j in
  match JobConfig.path (config j) with
  | Some file =>
      if bool_decide (file = "") then
        effects after = checked ∧ JobConfig.update (config after) = true
      else
        ∃ snapshot,
          effects after = PickleDump file snapshot :: checked ∧
          v_status snapshot = CONFIGURED ∧
          v_job_id snapshot = None ∧
          JobConfig.update (config after) = false
  | None => effects after = checked ∧ JobConfig.update (config after) = true
  end.
Proof.
  simpl. unfold reset. prim.
  destruct reset_retries; simpl;
    destruct (isfile os (effects j) _); simpl;
    rewrite update_snapshot_idle by (simpl; discriminate); simpl;
    destruct (JobConfig.path (config j)) as [file |]; simpl; auto;
    case_bool_decide; simpl; eauto.
Qed.

(** X3: after [reset], [submit] goes through whatever the job was before:
    it returns RUNNING, the job is RUNNING, and a local job holds a handle
    again. *)
Theorem submit_after_reset (os : OS) (reset_retries : bool) (j : Job) :
  let r := (reset os reset_retries;; submit) j in
  r.1 = Return RUNNING ∧
  JobConfig.status (config r.2) = RUNNING ∧
  JobConfig.n_retries (config r.2)
  = (if reset_retries then 0 else JobConfig.n_retries (config j)) ∧
  local_handle_ok r.2.
Proof.
  simpl. unfold mbind, M_bind.
  destruct (reset_spec os reset_retries j)
    as (j1 & -> & _ & _ & Hs & _ & Hn & _).
  destruct (submit_spec j1 Hs) as (j2 & -> & _ & Hs2 & Hn2 & _ & _ & Hok).
  simpl. by rewrite Hn2, Hn.
Qed.

(** ** Cancellation of a job that is not running *)

(** X4: [cancel] on a job that is neither FAILED nor RUNNING touches
    nothing outside: no process is terminated and the backend is not
    called.  The job becomes CANCELLED, also when it was SUCCESS, and
    [clear_retry] sets the budget to 0. *)
Theorem cancel_idle (clear_retry : bool) (j : Job) :
  JobConfig.status (config j) ≠ FAILED →
  JobConfig.status (config j) ≠ RUNNING →
  cancel clear_retry j
  = (Return (Some CANCELLED),
     {| config :=
          (if clear_retry then JobConfig.set_max_retries 0 else id)
            (JobConfig.set_status CANCELLED (config j));
        _local_process := _local_process j;
        effects := effects j |}).
Proof.
  intros Hf Hr. run.
  rewrite (bool_decide_eq_false_2 _ Hf), (bool_decide_eq_false_2 _ Hr).
  by destruct clear_retry.
Qed.

Lemma cancel_idle_witness :
  let j := example_job BATCH SUCCESS 3 0 in
  (cancel true j).1 = Return (Some CANCELLED) ∧
  JobConfig.max_retries (config (cancel true j).2) = 0 ∧
  effects (cancel true j).2 = [].
Proof.
  cbv zeta. rewrite (cancel_idle true (example_job BATCH SUCCESS 3 0));
    [by repeat split | discriminate | discriminate].
Defined.

(** X5: once [cancel] has cleared the budget, a retry that does not ignore
    the budget does nothing, whatever its other arguments. *)
Theorem no_retry_after_clear (os : OS) (force submit_ : bool)
    (job_type : option JobType) (j : Job) :
  JobConfig.status (config j) ≠ FAILED →
  local_handle_ok j →
  let j1 := (cancel true j).2 in
  JobConfig.max_retries (config j1) = 0 ∧
  _retry os force submit_ false job_type j1 = (Return None, j1).
Proof.
  intros Hf Hok. simpl.
  assert (Hmax : JobConfig.max_retries (config (cancel true j).2) = 0).
  { run. rewrite (bool_decide_eq_false_2 _ Hf).
    case_bool_decide as Hrun; simpl; [| done].
    case_bool_decide as Hty; simpl; [| done].
    by destruct (Hok Hrun Hty) as [p ->]. }
  split; [exact Hmax |].
  apply retry_refused. intros [Hi | [Hpos _]]; [discriminate Hi |].
  rewrite Hmax in Hpos. lia.
Qed.

Lemma no_retry_after_clear_witness :
  let j1 := (cancel true (example_local_running 2 0)).2 in
  JobConfig.max_retries (config j1) = 0 ∧
  _retry example_os true true false None j1 = (Return None, j1).
Proof.
  apply (no_retry_after_clear example_os true true None
           (example_local_running 2 0)).
  - discriminate.
  - intros _ _. by eexists.
Defined.

(** ** Tags *)

(** X6: [has_tags] answers whether some tag of the job is among the given
    ones: it is true exactly when [has_tag] is true of one of them, false
    for the empty set, and the parent tags do not count.  Neither query
    changes the job. *)
Theorem has_tags_some_has_tag (tags : gset string) (j : Job) :
  ∃ answer,
    has_tags tags j = (Return answer, j) ∧
    (answer = true ↔
     ∃ tag, tag ∈ tags ∧ has_tag tag j = (Return true, j)) ∧
    (tags = ∅ → answer = false) ∧
    (JobConfig.tags (config j) = ∅ → answer = false).
Proof.
  eexists. split; [reflexivity |]. run.
  rewrite negb_true_iff, negb_false_iff, bool_decide_eq_false.
  rewrite bool_decide_eq_true. split; [| split].
  - split.
    + intros Hne. apply set_choose_L in Hne as [tag Htag].
      exists tag. apply elem_of_intersection in Htag as [Hj Ht].
      split; [exact Ht |]. by rewrite bool_decide_eq_true_2.
    + intros (tag & Ht & Heq) Hempty.
      injection Heq as Heq. apply bool_decide_eq_true in Heq.
      apply (not_elem_of_empty (C := gset string) tag).
      rewrite <- Hempty. by apply elem_of_intersection.
  - intros ->. apply (right_absorb_L ∅ (∩)).
  - intros ->. apply (left_absorb_L ∅ (∩)).
Qed.

(** X7: [has_tag] after [add_tag].  A tag added as a tag is found; one
    added as a parent tag is not found unless it was a tag already; what
    [has_tag] answers for any other tag is as before. *)
Theorem has_tag_after_add_tag (tag other : string) (is_parent : bool)
    (j : Job) :
  let j' := (add_tag tag is_parent j).2 in
  (has_tag other j').1
  = Return
      (bool_decide (other ∈ JobConfig.tags (config j))
       || negb is_parent && bool_decide (other = tag)).
Proof.
  run. f_equal. destruct is_parent; simpl.
  - by rewrite orb_false_r.
  - rewrite <- bool_decide_or. apply bool_decide_ext.
    by rewrite elem_of_union, elem_of_singleton.
Qed.

(** X8: [add_tag] is idempotent, and two calls commute: the config after
    them is the same whichever comes first, also when one adds a tag and
    the other a parent tag. *)
Theorem add_tag_idempotent_commutative (a b : string) (pa pb : bool)
    (c : JobConfig.t) :
  JobConfig.add_tag a pa (JobConfig.add_tag a pa c)
  = JobConfig.add_tag a pa c ∧
  JobConfig.add_tag a pa (JobConfig.add_tag b pb c)
  = JobConfig.add_tag b pb (JobConfig.add_tag a pa c).
Proof.
  unfold JobConfig.add_tag, JobConfig.update_decorator,
    JobConfig.tags_add, JobConfig.parent_tags_add, JobConfig.set_update.
  split; destruct pa, pb; simpl; f_equal; try done.
  all: rewrite <- !(assoc_L (∪)).
  all: first [by rewrite (idemp_L (∪) _) | f_equal; apply (comm_L (∪))].
Qed.

(** [add_tags] on every field of the config. *)
Lemma add_tags_fields (ts : JobConfig.Tags) (is_parent : bool)
    (c : JobConfig.t) :
  let c' := JobConfig.add_tags ts is_parent c in
  JobConfig.tags c'
  = (if is_parent then JobConfig.tags c
     else JobConfig.tags c ∪ tags_of ts) ∧
  JobConfig.parent_tags c'
  = (if is_parent then JobConfig.parent_tags c ∪ tags_of ts
     else JobConfig.parent_tags c) ∧
  JobConfig.update c'
  = (if ts is JobConfig.Several [] then JobConfig.update c else true) ∧
  static c' = static c ∧
  JobConfig.status c' = JobConfig.status c ∧
  JobConfig.n_retries c' = JobConfig.n_retries c ∧
  JobConfig.max_retries c' = JobConfig.max_retries c ∧
  JobConfig.type c' = JobConfig.type c ∧
  JobConfig.job_id c' = JobConfig.job_id c ∧
  JobConfig.exitcode c' = JobConfig.exitcode c.
Proof.
  destruct ts as [l | tag];
    [| cbv zeta; destruct is_parent; repeat split; reflexivity].
  simpl. revert c. induction l as [| tag l IH]; intros c; simpl.
  - destruct is_parent; repeat split;
      by rewrite (right_id_L ∅ (∪)).
  - destruct (IH (JobConfig.add_tag tag is_parent c))
      as (Ht & Hp & Hu & Hs & Hst & Hn & Hm & Hty & Hid & Hex).
    rewrite Ht, Hp, Hu, Hs, Hst, Hn, Hm, Hty, Hid, Hex.
    destruct is_parent; simpl; repeat split;
      rewrite <- ?(assoc_L (∪)); try done; by destruct l.
Qed.

(** The constructor leaves the config CONFIGURED. *)
Lemma JobConfig_init_status (untouched : bool) (backend : Backend.t)
    (path : option string) (success_func finished_func : option JobConfig.Hook)
    (post_func : option (ConfigView → unit)) (max_retries : Z)
    (tags parent_tags : option JobConfig.Tags) (job_type : JobType)
    (output : option string) :
  JobConfig.status
    (JobConfig_init untouched backend path success_func finished_func
       post_func max_retries tags parent_tags job_type output)
  = CONFIGURED.
Proof.
  unfold JobConfig_init.
  repeat match goal with
  | |- context [JobConfig.add_tags ?ts ?p ?c] =>
      let H := fresh in
      destruct (add_tags_fields ts p c) as (_ & _ & _ & _ & H & _);
      rewrite H; clear H
  | |- context [match ?x with Some _ => _ | None => _ end] => destruct x
  end; reflexivity.
Qed.

(** X9: [add_tags] adds every tag it is given to the tags, or to the parent
    tags if [is_parent], and leaves the other set alone; the order and the
    repetitions in a list do not matter.  The config is tagged as changed
    unless the list is empty: [add_tags] of an empty list leaves the
    config as it was, tag included. *)
Theorem add_tags_union (ts : JobConfig.Tags) (is_parent : bool)
    (c : JobConfig.t) :
  let c' := JobConfig.add_tags ts is_parent c in
  JobConfig.tags c'
  = (if is_parent then JobConfig.tags c
     else JobConfig.tags c ∪ tags_of ts) ∧
  JobConfig.parent_tags c'
  = (if is_parent then JobConfig.parent_tags c ∪ tags_of ts
     else JobConfig.parent_tags c) ∧
  JobConfig.update c'
  = (if ts is JobConfig.Several [] then JobConfig.update c else true) ∧
  (if ts is JobConfig.Several [] then c' = c else True).
Proof.
  destruct (add_tags_fields ts is_parent c) as (Ht & Hp & Hu & _).
  split; [exact Ht | split; [exact Hp | split; [exact Hu |]]].
  by destruct ts as [[| tag l] | tag].
Qed.

(** X10: a config made by the constructor is CONFIGURED, has counted no
    retry, has neither job id nor exit code, and is named after its
    backend.  Its tags and parent tags are exactly those given; it is
    tagged as changed if a tag was given, and has the tag of an untouched
    instance if none was. *)
Theorem JobConfig_init_fresh (untouched : bool) (backend : Backend.t)
    (path : option string) (success_func finished_func : option JobConfig.Hook)
    (post_func : option (ConfigView → unit)) (max_retries : Z)
    (tags parent_tags : option JobConfig.Tags) (job_type : JobType)
    (output : option string) :
  let c :=
    JobConfig_init untouched backend path success_func finished_func
      post_func max_retries tags parent_tags job_type output in
  let given ts :=
    match ts with
    | Some (JobConfig.Several []) | None => false
    | Some _ => true
    end in
  JobConfig.status c = CONFIGURED ∧
  JobConfig.n_retries c = 0 ∧
  JobConfig.job_id c = None ∧
  JobConfig.exitcode c = None ∧
  JobConfig.name c = Backend.name backend ∧
  JobConfig.tags c = from_option tags_of ∅ tags ∧
  JobConfig.parent_tags c = from_option tags_of ∅ parent_tags ∧
  JobConfig.update c
  = (if given tags || given parent_tags then true else untouched) ∧
  JobConfig.max_retries c = max_retries ∧
  JobConfig.type c = job_type.
Proof.
  cbv zeta. unfold JobConfig_init.
  set (blank := JobConfig.Build_t _ _ _ _ _ _ _ _ _ _ _ _ _ _ _ _).
  set (c1 := match tags with Some ts => _ | None => _ end).
  assert (H1 :
    JobConfig.tags c1 = from_option tags_of ∅ tags ∧
    JobConfig.parent_tags c1 = ∅ ∧
    JobConfig.update c1
    = (if (if tags is Some (JobConfig.Several []) then false
           else bool_decide (is_Some tags))
       then true else untouched) ∧
    static c1 = static blank ∧
    JobConfig.status c1 = CONFIGURED ∧ JobConfig.n_retries c1 = 0 ∧
    JobConfig.max_retries c1 = max_retries ∧ JobConfig.type c1 = job_type ∧
    JobConfig.job_id c1 = None ∧ JobConfig.exitcode c1 = None).
  { subst c1. destruct tags as [ts |]; [| done].
    destruct (add_tags_fields ts false blank) as (Ht & Hp & Hu & Hrest).
    rewrite Ht, Hp, Hu. simpl. rewrite (left_id_L ∅ (∪)).
    split; [done | split; [done | split; [| exact Hrest]]].
    by destruct ts as [[| tag l] | tag]. }
  destruct H1 as (Ht & Hp & Hu & Hs & Hst & Hn & Hm & Hty & Hid & Hex).
  destruct parent_tags as [ps |].
  - destruct (add_tags_fields ps true c1)
      as (Ht' & Hp' & Hu' & Hs' & Hst' & Hn' & Hm' & Hty' & Hid' & Hex').
    rewrite Ht', Hp', Hu', Hst', Hn', Hm', Hty', Hid', Hex'.
    rewrite Ht, Hp, Hu, Hst, Hn, Hm, Hty, Hid, Hex, (left_id_L ∅ (∪)).
    assert (Hname : JobConfig.name (JobConfig.add_tags ps true c1)
                    = Backend.name backend).
    { rewrite (f_equal (λ t, t.1.1.1.1.1.2) Hs' : JobConfig.name _ = _).
      exact (f_equal (λ t, t.1.1.1.1.1.2) Hs). }
    rewrite Hname. repeat split.
    destruct tags as [[[| t lt] | t] |], ps as [[| p lp] | p]; done.
  - rewrite Ht, Hp, Hu, Hst, Hn, Hm, Hty, Hid, Hex.
    assert (Hname : JobConfig.name c1 = Backend.name backend).
    { exact (f_equal (λ t, t.1.1.1.1.1.2) Hs). }
    rewrite Hname. repeat split.
    destruct tags as [[[| t lt] | t] |]; done.
Qed.

(** ** Status evaluation of a running job *)

(** After [get_status] without [skip_eval] the job is not FINISHED. *)
Lemma get_status_not_finished (os : OS) (force_success_check : bool)
    (j : Job) :
  let r := get_status os false force_success_check j in
  r.1 ≠ Return FINISHED ∧ JobConfig.status (config r.2) ≠ FINISHED.
Proof.
  simpl. run.
  destruct (JobConfig.status (config j)) eqn:Hs; simpl.
  2: destruct (JobConfig.type (config j)) eqn:Hty; simpl;
       [destruct (_local_process j) as [p |] eqn:Hp; simpl |].
  all: branches; simpl; rewrite ?Hs.
  all: repeat match goal with
       | H : _ || _ = false |- _ => apply orb_false_iff in H as [H ?]
       | H : bool_decide _ = false |- _ => apply bool_decide_eq_false in H
       end.
  all: simpl in *; split; congruence.
Qed.


(** X12: a job that is CONFIGURED, SUCCESS, FAILED or CANCELLED can be
    polled at will: [get_status] returns its status and changes nothing,
    calls neither the backend nor a hook, however often it is called. *)
Theorem polling_settled_job (os : OS) (rounds : nat) (j : Job) :
  settled (JobConfig.status (config j)) →
  get_status os false false j = (Return (JobConfig.status (config j)), j) ∧
  drive os (replicate rounds (CallGetStatus false false)) j = j.
Proof.
  intros [Hr Hf]. split; [by apply get_status_idle |].
  induction rounds as [| rounds IH]; simpl; [reflexivity |].
  unfold mbind, M_bind. by rewrite (get_status_idle os j Hr Hf).
Qed.

Lemma polling_settled_job_witness :
  let j := example_job BATCH CANCELLED 1 0 in
  get_status example_os false false j = (Return CANCELLED, j) ∧
  drive example_os (replicate 5 (CallGetStatus false false)) j = j.
Proof.
  apply (polling_settled_job example_os 5 (example_job BATCH CANCELLED 1 0)).
  split; discriminate.
Defined.

(** [get_status] on a running local job whose process has ended. *)
Lemma get_status_local_exit (os : OS) (force_success_check : bool) (j : Job)
    (p : Popen) (code : Z) :
  JobConfig.status (config j) = RUNNING →
  JobConfig.type (config j) = LOCAL →
  _local_process j = Some p →
  JobConfig.success_func (config j) = None →
  poll os (effects j) p = Some code →
  let verdict := if bool_decide (code = 0) then SUCCESS else FAILED in
  let c' :=
    JobConfig.set_status verdict
      (JobConfig.set_status FINISHED
         (JobConfig.set_exitcode (Some (ExitInt code)) (config j))) in
  let written :=
    LogWrite (Backend.log (JobConfig.backend (config j)))
      (stdout_read os (Poll p :: effects j) p)
    :: Poll p :: effects j in
  get_status os false force_success_check j
  = (Return verdict,
     {| config := c'; _local_process := Some p;
        effects :=
          if JobConfig.post_func (config j) is Some _
          then PostFunc (JobConfig.view c') :: written
          else written |}).
Proof.
  intros Hs Hty Hp Hsf Hpoll. run.
  rewrite Hs. simpl. rewrite Hty. simpl. rewrite Hp. simpl.
  rewrite Hpoll. simpl. rewrite Hp. simpl. rewrite Hsf. simpl.
  rewrite Hty. simpl.
  destruct (decide (code = 0)) as [-> | Hcode].
  - simpl. by destruct (JobConfig.post_func (config j)).
  - rewrite !(bool_decide_eq_false_2 (code = 0)) by exact Hcode. simpl.
    by destruct (JobConfig.post_func (config j)).
Qed.

(** X13: one [get_status] on a running local job without [success_func].
    While the process runs, the job stays RUNNING and only the poll is
    seen outside.  Once the process has ended, the same call stores the
    exit code, writes the output of the process to the log file of the
    backend and ends the job: SUCCESS if the code is 0, FAILED if not.
    The backend is not called. *)
Theorem get_status_local_running (os : OS) (j : Job) (p : Popen) :
  JobConfig.status (config j) = RUNNING →
  JobConfig.type (config j) = LOCAL →
  _local_process j = Some p →
  JobConfig.success_func (config j) = None →
  let r := get_status os false false j in
  match poll os (effects j) p with
  | None =>
      r = (Return RUNNING,
           {| config :=
                JobConfig.set_status RUNNING
                  (JobConfig.set_exitcode None (config j));
              _local_process := Some p;
              effects := Poll p :: effects j |})
  | Some code =>
      let verdict := if bool_decide (code = 0) then SUCCESS else FAILED in
      let log := Backend.log (JobConfig.backend (config j)) in
      r.1 = Return verdict ∧
      JobConfig.status (config r.2) = verdict ∧
      JobConfig.exitcode (config r.2) = Some (ExitInt code) ∧
      LogWrite log (stdout_read os (Poll p :: effects j) p) ∈ effects r.2 ∧
      count_events is_backend_call (effects r.2)
      = count_events is_backend_call (effects j)
  end.
Proof.
  intros Hs Hty Hp Hsf. simpl.
  destruct (poll os (effects j) p) as [code |] eqn:Hpoll.
  - rewrite (get_status_local_exit os false j p code Hs Hty Hp Hsf Hpoll).
    simpl. repeat split.
    + destruct (JobConfig.post_func (config j)); rewrite !elem_of_cons; auto.
    + by destruct (JobConfig.post_func (config j)).
  - run. rewrite Hs. simpl. rewrite Hty. simpl. rewrite Hp. simpl.
    rewrite Hpoll. simpl. by rewrite Hp.
Qed.

Lemma get_status_local_running_witness :
  let j := example_local_running 2 0 in
  (get_status example_os false false j).1 = Return FAILED ∧
  JobConfig.exitcode (config (get_status example_os false false j).2)
  = Some (ExitInt 1).
Proof.
  pose proof (get_status_local_running example_os (example_local_running 2 0)
                {| args := ["/bin/bash"; "run_fit.sh"; "--fast"]; pid := 0 |}
                eq_refl eq_refl eq_refl eq_refl) as H.
  simpl in H. destruct H as (Hret & _ & Hcode & _).
  split; [exact Hret | exact Hcode].
Defined.

(** X14: one [get_status] on a running batch job.  With a
    [finished_func], its answer decides and [backend.status()] is not
    called: the job stays RUNNING on false and is evaluated to SUCCESS or
    FAILED on true.  Without one, the job takes the status
    [backend.status()] answers, whatever it is, unless that is FINISHED,
    which is evaluated at once. *)
Theorem get_status_batch_running (os : OS) (j : Job) :
  JobConfig.status (config j) = RUNNING →
  JobConfig.type (config j) = BATCH →
  let r := get_status os false false j in
  match JobConfig.finished_func (config j) with
  | Some f =>
      (BackendStatus ∉ effects j → BackendStatus ∉ effects r.2) ∧
      if f (effects j) (JobConfig.view (config j)) then
        JobConfig.status (config r.2) = SUCCESS ∨
        JobConfig.status (config r.2) = FAILED
      else
        r = (Return RUNNING,
             {| config := JobConfig.set_status RUNNING (config j);
                _local_process := _local_process j;
                effects :=
                  FinishedFunc (JobConfig.view (config j)) :: effects j |})
  | None =>
      let answer :=
        Backend.status (JobConfig.backend (config j)) (effects j) in
      if bool_decide (answer = FINISHED) then
        JobConfig.status (config r.2) = SUCCESS ∨
        JobConfig.status (config r.2) = FAILED
      else
        r = (Return answer,
             {| config := JobConfig.set_status answer (config j);
                _local_process := _local_process j;
                effects := BackendStatus :: effects j |})
  end.
Proof.
  intros Hs Hty. simpl. run. rewrite Hs. simpl. rewrite Hty. simpl.
  destruct (JobConfig.finished_func (config j)) as [f |]; simpl.
  - destruct (f _ _); simpl.
    + split.
      * intros Hnot.
        branches; simpl; rewrite !elem_of_cons; intuition congruence.
      * branches; simpl; auto.
    + split; [| reflexivity].
      intros Hnot. simpl. rewrite !elem_of_cons. intuition congruence.
  - destruct (Backend.status _ _) eqn:Hanswer; simpl;
      try reflexivity.
    branches; simpl; auto.
Qed.

Lemma get_status_batch_running_witness :
  let j := example_batch_running 0 0 in
  let after := (get_status example_os false false j).2 in
  JobConfig.status (config after) = SUCCESS ∨
  JobConfig.status (config after) = FAILED.
Proof.
  exact (get_status_batch_running example_os (example_batch_running 0 0)
           eq_refl eq_refl).
Defined.

(** X15: with [force_success_check] the success is evaluated whatever the
    status: for a job that holds the handle of its running local process,
    [get_status] returns SUCCESS or FAILED and leaves the job so, also a
    job that was never submitted or is still running. *)
Theorem force_success_check_decides (os : OS) (j : Job) :
  local_handle_ok j →
  ∃ j',
    get_status os false true j = (Return (JobConfig.status (config j')), j') ∧
    (JobConfig.status (config j') = SUCCESS ∨
     JobConfig.status (config j') = FAILED).
Proof.
  intros Hok. run.
  destruct (JobConfig.status (config j)) eqn:Hs; simpl.
  2: destruct (JobConfig.type (config j)) eqn:Hty; simpl;
       [destruct (Hok Hs Hty) as [p Hp]; rewrite Hp; simpl |].
  all: branches.
  all: try match goal with
       | H : _ || true = false |- _ => by rewrite orb_true_r in H
       end.
  all: lazymatch goal with
       | |- ∃ j', (_, ?x) = _ ∧ _ =>
           exists x; split; [reflexivity | simpl; auto]
       end.
Qed.

Lemma force_success_check_decides_witness :
  let j := example_job LOCAL CONFIGURED 0 0 in
  ∃ j',
    get_status example_os false true j = (Return FAILED, j') ∧
    JobConfig.status (config j') = FAILED.
Proof.
  destruct (force_success_check_decides example_os
              (example_job LOCAL CONFIGURED 0 0)) as (j' & Hget & Hs).
  - intros Hrun. discriminate Hrun.
  - assert (Hst : FAILED = JobConfig.status (config j'))
      by (injection Hget as Hst _; exact Hst).
    exists j'. rewrite Hget, <- Hst. by split.
Defined.

(** X16: when [get_status] evaluates a FINISHED job that has a
    [post_func], the call of the hook is the last thing it does, and the
    config the hook is given already carries the final status. *)
Theorem post_func_sees_final_status (os : OS) (force_success_check : bool)
    (j : Job) (hook : ConfigView → unit) :
  JobConfig.status (config j) = FINISHED →
  JobConfig.post_func (config j) = Some hook →
  let r := get_status os false force_success_check j in
  ∃ seen,
    head (effects r.2) = Some (PostFunc seen) ∧
    seen = JobConfig.view (config r.2) ∧
    r.1 = Return (v_status seen).
Proof.
  intros Hs Hpf. simpl. run. repeat (rewrite Hs; simpl).
  destruct (JobConfig.success_func (config j)) as [f |]; simpl.
  - destruct (f _ _); simpl; rewrite Hpf; simpl; eauto.
  - destruct (JobConfig.type (config j)); simpl.
    + destruct (exitcode_eq_int _ _); simpl; rewrite Hpf; simpl; eauto.
    + destruct (bool_decide _); simpl; rewrite Hpf; simpl; eauto.
Qed.

Lemma post_func_sees_final_status_witness :
  let c := example_config BATCH FINISHED 0 0 in
  let j :=
    Job_init
      {| JobConfig.backend := JobConfig.backend c; JobConfig.name := "fit";
         JobConfig.path := None; JobConfig.tags := ∅;
         JobConfig.parent_tags := ∅; JobConfig.success_func := None;
         JobConfig.finished_func := None;
         JobConfig.post_func := Some (λ _, ());
         JobConfig.max_retries := 0; JobConfig.output := None;
         JobConfig.type := BATCH; JobConfig.status := FINISHED;
         JobConfig.job_id := Some 7; JobConfig.n_retries := 0;
         JobConfig.exitcode := None; JobConfig.update := false |} [] in
  ∃ seen,
    head (effects (get_status example_os false false j).2)
    = Some (PostFunc seen) ∧
    v_status seen = SUCCESS.
Proof.
  cbv zeta.
  edestruct (post_func_sees_final_status example_os false)
    as (seen & Hhead & Hseen & Hret);
    [| | exists seen; split; [exact Hhead |]].
  - reflexivity.
  - reflexivity.
  - rewrite Hseen. reflexivity.
Defined.

(** ** Snapshots, again *)

(** X17: a second [update_snapshot] right after the first does nothing:
    whether the first wrote, had nothing to write or raised, calling it
    twice is calling it once. *)
Theorem update_snapshot_twice (os : OS) (j : Job) :
  (update_snapshot os;; update_snapshot os) j = update_snapshot os j.
Proof.
  unfold mbind, M_bind, update_snapshot, track. prim.
  destruct (truthy (JobConfig.path (config j))) eqn:Hpath; simpl.
  - destruct (JobConfig.update (config j)) eqn:Htag; simpl.
    + destruct (get_status os false false j) as [[s | e] j1]; simpl;
        [| reflexivity].
      by destruct (truthy (JobConfig.path (config j1))).
    + rewrite Hpath. simpl. by rewrite Htag.
  - by rewrite Hpath.
Qed.

(** X18: the snapshot [update_snapshot] writes is taken before the change
    tag is cleared: the config in the file is tagged as changed while the
    one in memory no longer is.  The status in the file is never
    FINISHED. *)
Theorem snapshot_is_written_tagged (os : OS) (j : Job) :
  truthy (JobConfig.path (config j)) = true →
  JobConfig.update (config j) = true →
  local_handle_ok j →
  let after := (update_snapshot os j).2 in
  ∃ file snapshot rest,
    effects after = PickleDump file snapshot :: rest ∧
    v_update snapshot = true ∧
    v_status snapshot ≠ FINISHED ∧
    v_status snapshot = JobConfig.status (config after) ∧
    JobConfig.update (config after) = false.
Proof.
  intros Hpath Htag Hok. simpl.
  destruct (get_status_returns os false j Hok) as (j1 & Hget).
  assert (Htag1 : JobConfig.update (config j1) = true).
  { pose proof (get_status_frame (λ c, JobConfig.update c = true)) as Hkeep.
    specialize (Hkeep (λ _ _ _, eq_refl) (λ _ _ _, eq_refl)
                  os false false j Htag).
    by rewrite Hget in Hkeep. }
  assert (Hfin : JobConfig.status (config j1) ≠ FINISHED).
  { pose proof (get_status_not_finished os false j) as [_ Hnf].
    by rewrite Hget in Hnf. }
  unfold update_snapshot, track. prim.
  rewrite Hpath. simpl. rewrite Htag. simpl. rewrite Hget. simpl.
  eexists _, _, _. split; [reflexivity |]. by simpl.
Qed.

Lemma snapshot_is_written_tagged_witness :
  let after := (update_snapshot example_os (example_batch_running 0 0)).2 in
  ∃ file snapshot rest,
    effects after = PickleDump file snapshot :: rest ∧
    v_update snapshot = true ∧
    JobConfig.update (config after) = false.
Proof.
  destruct (snapshot_is_written_tagged example_os (example_batch_running 0 0))
    as (file & snapshot & rest & Heff & Htag & _ & _ & Hclear).
  - reflexivity.
  - reflexivity.
  - intros _ Hty. discriminate Hty.
  - by exists file, snapshot, rest.
Defined.

(** ** Call sequences *)

(** X19: whatever a driver calls, and in whatever order, the backend, the
    name, the snapshot path, the three hooks and the output of the job are
    never changed. *)
Theorem drive_keeps_static (os : OS) (calls : list Call) (j : Job) :
  static (config (drive os calls j)) = static (config j).
Proof.
  apply (drive_frame (λ c, static c = static (config j)));
    first [ reflexivity
          | intros ? ? H; exact H
          | intros ? p ? H; destruct p; exact H ].
Qed.

(** Dropping the result of a method changes neither the job it leaves nor
    whether it raises. *)
Lemma drop_result {A : Type} (m : M A) (j : Job) :
  ((m;; mret ()) j).2 = (m j).2 ∧
  ∀ e, (m j).1 ≠ Raise e → ((m;; mret ()) j).1 ≠ Raise e.
Proof.
  unfold mbind, M_bind, mret, M_ret.
  destruct (m j) as [[a | e'] j1]; simpl;
    (split; [reflexivity | intros e0 H]); [discriminate |].
  intros Heq. apply H. by injection Heq as ->.
Qed.

Lemma add_tags_keeps_handle (tags : JobConfig.Tags) (is_parent : bool) :
  preserves local_handle_ok (add_tags tags is_parent).
Proof.
  intros j Hok. unfold local_handle_ok in *. run.
  destruct (add_tags_fields tags is_parent (config j))
    as (_ & _ & _ & _ & -> & _ & _ & -> & _).
  exact Hok.
Qed.

Lemma perform_keeps_handle (os : OS) (c : Call) :
  preserves local_handle_ok (perform os c).
Proof.
  intros j Hok. destruct c; simpl; rewrite ?(proj1 (drop_result _ _)).
  - by apply submit_keeps_handle.
  - by apply cancel_keeps_handle.
  - by apply get_status_keeps_handle.
  - by apply update_snapshot_keeps_handle.
  - by apply reset_keeps_handle.
  - by apply set_type_keeps_handle.
  - by apply _retry_keeps_handle.
  - by apply rerun_keeps_handle.
  - by apply add_tag_keeps_handle.
  - by apply add_tags_keeps_handle.
Qed.

Lemma drive_keeps_handle (os : OS) (calls : list Call) :
  preserves local_handle_ok (λ j, (Return (), drive os calls j)).
Proof.
  induction calls as [| c calls IH]; intros j Hok; simpl; [exact Hok |].
  apply (IH (perform os c j).2). by apply perform_keeps_handle.
Qed.

(** With the handle there, [cancel] on a running local job has no reason
    to raise; without it, it raises and leaves the job as it was. *)
Lemma cancel_without_handle (clear_retry : bool) (j : Job) :
  JobConfig.status (config j) = RUNNING →
  JobConfig.type (config j) = LOCAL →
  _local_process j = None →
  cancel clear_retry j = (Raise AttributeError, j).
Proof.
  intros Hs Hty Hp. run. rewrite Hs. simpl. rewrite Hty. simpl.
  by rewrite Hp.
Qed.

(** What a retry returns, at its outermost. *)
Lemma _retry_outcome (os : OS) (force submit_ ignore_max_retries : bool)
    (job_type : option JobType) (j : Job) :
  local_handle_ok j →
  ∃ r, (_retry os force submit_ ignore_max_retries job_type j).1 = Return r.
Proof.
  intros Hok.
  destruct (decide (may_retry ignore_max_retries j)) as [Hguard | Hguard].
  - destruct (decide (JobConfig.status (config j) = RUNNING)) as [Hs | Hs].
    + destruct force.
      * destruct (retry_forced os submit_ ignore_max_retries job_type j
                    Hs Hguard Hok) as (ev & j' & _ & -> & _).
        by eexists.
      * rewrite (retry_running_unforced os _ _ _ j Hs). by eexists.
    + destruct (retry_idle os force submit_ ignore_max_retries job_type j
                  Hs Hguard) as (j' & -> & _).
      by eexists.
  - destruct ignore_max_retries; [destruct Hguard; by left |].
    rewrite (retry_refused os _ _ _ j Hguard). by eexists.
Qed.

Lemma perform_no_attribute_error (os : OS) (c : Call) (j : Job) :
  local_handle_ok j → (perform os c j).1 ≠ Raise AttributeError.
Proof.
  intros Hok. destruct c; simpl; try apply drop_result.
  - destruct (decide (JobConfig.status (config j) = CONFIGURED)) as [Hs | Hs].
    + by rewrite (submit_eq j Hs).
    + by rewrite (submit_raises j Hs).
  - destruct (decide (JobConfig.status (config j) = FAILED)) as [Hs | Hs].
    + by rewrite (cancel_failed_eq _ j Hs).
    + by destruct (cancel_not_failed clear_retry j Hs Hok) as [-> _].
  - destruct skip_eval; [done |].
    by destruct (get_status_returns os force_success_check j Hok)
      as (j' & ->).
  - unfold update_snapshot, track. prim.
    destruct (truthy _); simpl; [| done].
    destruct (JobConfig.update _); simpl; [| done].
    by destruct (get_status_returns os false j Hok) as (j' & ->).
  - by destruct (reset_spec os reset_retries j) as (j' & -> & _).
  - run. by case_bool_decide.
  - by destruct (_retry_outcome os force submit_ ignore_max_retries
                   job_type j Hok) as (r & ->).
  - by destruct (_retry_outcome os true true true job_type j Hok)
      as (r & ->).
  - done.
  - done.
Qed.

(** X20: a job made by the two constructors never lacks the handle of its
    local process when a method needs it: whatever the driver has called
    before, no call raises [AttributeError]. *)
Theorem fresh_job_never_lacks_handle (os : OS) (untouched : bool)
    (backend : Backend.t) (path : option string)
    (success_func finished_func : option JobConfig.Hook)
    (post_func : option (ConfigView → unit)) (max_retries : Z)
    (tags parent_tags : option JobConfig.Tags) (job_type : JobType)
    (output : option string) (past : list Event) (calls : list Call)
    (c : Call) :
  let fresh :=
    Job_init
      (JobConfig_init untouched backend path success_func finished_func
         post_func max_retries tags parent_tags job_type output)
      past in
  local_handle_ok (drive os calls fresh) ∧
  (perform os c (drive os calls fresh)).1 ≠ Raise AttributeError.
Proof.
  simpl.
  assert (Hok : local_handle_ok
    (drive os calls
       (Job_init
          (JobConfig_init untouched backend path success_func finished_func
             post_func max_retries tags parent_tags job_type output)
          past))).
  { apply (drive_keeps_handle os calls). apply Job_init_handle_ok.
    apply JobConfig_init_status. }
  split; [exact Hok | by apply perform_no_attribute_error].
Qed.

(** ** The retry budget *)

(** A forced retry of a running local job without handle raises in
    [cancel] and leaves the job as it was. *)
Lemma retry_forced_without_handle (os : OS)
    (submit_ ignore_max_retries : bool) (job_type : option JobType)
    (j : Job) :
  JobConfig.status (config j) = RUNNING →
  JobConfig.type (config j) = LOCAL →
  _local_process j = None →
  may_retry ignore_max_retries j →
  _retry os true submit_ ignore_max_retries job_type j
  = (Raise AttributeError, j).
Proof.
  intros Hs Hty Hp Hguard.
  unfold _retry, mbind, M_bind.
  rewrite (guard_passes _ _ Hguard). simpl. prim.
  rewrite Hs. simpl.
  by rewrite (cancel_without_handle false j Hs Hty Hp).
Qed.

Lemma _retry_keeps_budget (os : OS) (force submit_ : bool)
    (job_type : option JobType) :
  preserves budget_ok (_retry os force submit_ false job_type).
Proof.
  intros j [Hn Hmax]. unfold budget_ok.
  destruct (decide (may_retry false j)) as [Hguard | Hguard];
    [| by rewrite (retry_refused os _ _ _ j Hguard)].
  assert (Hroom : JobConfig.n_retries (config j)
                  < JobConfig.max_retries (config j))
    by (by destruct Hguard as [? | [_ ?]]).
  destruct (decide (JobConfig.status (config j) = RUNNING)) as [Hs | Hs].
  - destruct force.
    + destruct (JobConfig.type (config j)) eqn:Hty.
      * destruct (_local_process j) as [p |] eqn:Hp.
        -- destruct (retry_forced os submit_ false job_type j Hs Hguard)
             as (ev & j' & _ & -> & _ & _ & Hn' & _ & Hm' & _).
           { intros _ _. by rewrite Hp. }
           simpl. rewrite Hn', Hm'. lia.
        -- by rewrite (retry_forced_without_handle os _ _ _ j Hs Hty Hp
                         Hguard).
      * destruct (retry_forced os submit_ false job_type j Hs Hguard)
          as (ev & j' & _ & -> & _ & _ & Hn' & _ & Hm' & _).
        { intros _ Hl. congruence. }
        simpl. rewrite Hn', Hm'. lia.
    + rewrite (retry_running_unforced os _ _ _ j Hs).
      by case_bool_decide.
  - destruct (retry_idle os force submit_ false job_type j Hs Hguard)
      as (j' & -> & _ & _ & Hn' & _ & Hm' & _).
    simpl. rewrite Hn', Hm'. lia.
Qed.

Lemma perform_keeps_budget (os : OS) (c : Call) :
  automatic c = true → preserves budget_ok (perform os c).
Proof.
  intros Hauto j Hj.
  pose (Q := λ c : JobConfig.t,
    (0 ≤ JobConfig.n_retries c ≤ JobConfig.max_retries c)%Z).
  destruct c; simpl in *; rewrite ?(proj1 (drop_result _ _)).
  - apply (submit_frame Q); first [exact Hj | intros ? ? H; exact H].
  - destruct clear_retry; [discriminate Hauto |].
    unfold budget_ok in *. revert Hj. run. branches; by simpl.
  - apply (get_status_frame Q); first [exact Hj | intros ? ? H; exact H].
  - apply (update_snapshot_frame Q); first [exact Hj | intros ? ? H; exact H].
  - destruct (reset_spec os reset_retries j)
      as (j' & -> & _ & _ & _ & _ & Hn & _ & Hm & _).
    unfold budget_ok in *. simpl. rewrite Hn, Hm.
    destruct reset_retries; lia.
  - apply (set_type_frame Q); first [exact Hj | intros ? ? H; exact H].
  - destruct ignore_max_retries; [discriminate Hauto |].
    by apply _retry_keeps_budget.
  - discriminate Hauto.
  - unfold budget_ok in *. revert Hj. run. by destruct is_parent.
  - unfold budget_ok in *. revert Hj. run.
    by destruct (add_tags_fields tags is_parent (config j))
      as (_ & _ & _ & _ & _ & -> & -> & _).
Qed.

(** X21: as long as the driver neither calls [rerun], nor a retry that
    ignores the budget, nor a [cancel] that clears it, the retries counted
    stay within the budget, whatever else it calls and in whatever
    order. *)
Theorem automatic_calls_keep_budget (os : OS) (calls : list Call) (j : Job) :
  budget_ok j →
  forallb automatic calls = true →
  budget_ok (drive os calls j).
Proof.
  revert j. induction calls as [| c calls IH]; intros j Hj Hauto; simpl;
    [exact Hj |].
  simpl in Hauto. apply andb_true_iff in Hauto as [Hc Hrest].
  apply IH; [| exact Hrest]. by apply perform_keeps_budget.
Qed.

Lemma automatic_calls_keep_budget_witness :
  let calls :=
    [CallSubmit; CallGetStatus false false; CallRetry false true false None;
     CallGetStatus false false; CallRetry true true false None;
     CallRetry true true false (Some BATCH); CallCancel false;
     CallReset false] in
  budget_ok (drive example_os calls (example_job LOCAL CONFIGURED 1 0)).
Proof.
  apply (automatic_calls_keep_budget example_os).
  - split; simpl; lia.
  - reflexivity.
Defined.



(** ** A job that fails at every attempt *)

(** One round on a running local job whose process fails: the job is
    FAILED, retried and running again, with one more retry counted. *)
Lemma attempt_fails (os : OS) (j : Job) :
  always_fails os →
  JobConfig.status (config j) = RUNNING →
  JobConfig.type (config j) = LOCAL →
  is_Some (_local_process j) →
  JobConfig.success_func (config j) = None →
  (JobConfig.n_retries (config j) < JobConfig.max_retries (config j))%Z →
  (0 < JobConfig.max_retries (config j))%Z →
  ∃ j',
    attempt os j = (Return (Some RUNNING), j') ∧
    JobConfig.status (config j') = RUNNING ∧
    JobConfig.type (config j') = LOCAL ∧
    is_Some (_local_process j') ∧
    JobConfig.success_func (config j') = None ∧
    JobConfig.n_retries (config j') = JobConfig.n_retries (config j) + 1 ∧
    JobConfig.max_retries (config j') = JobConfig.max_retries (config j).
Proof.
  intros Hfail Hs Hty [p Hp] Hsf Hroom Hpos.
  destruct (Hfail (effects j) p) as (code & Hpoll & Hcode).
  pose proof (get_status_local_exit os false j p code Hs Hty Hp Hsf Hpoll)
    as Hget.
  cbv zeta in Hget. rewrite (bool_decide_eq_false_2 _ Hcode) in Hget.
  unfold attempt, mbind, M_bind. rewrite Hget.
  match goal with |- context [_retry _ _ _ _ _ ?x] => set (j1 := x) end.
  destruct (retry_idle os false true false None j1)
    as (j' & Hr & _ & Hst' & Hn' & Hty' & Hm' & Hok').
  { simpl. discriminate. }
  { right. simpl. lia. }
  exists j'. split; [exact Hr |].
  assert (Hsf' : JobConfig.success_func (config j') = None).
  { pose proof (_retry_frame (λ c, JobConfig.success_func c = None)) as Hkeep.
    specialize (Hkeep (λ _ _ H, H) (λ _ _ H, H) (λ _ _ H, H) (λ _ _ H, H)
                  (λ _ _ H, H) (λ _ _ H, H) (λ _ _ H, H)
                  os false true false None j1 Hsf).
    by rewrite Hr in Hkeep. }
  simpl in Hty', Hn', Hm'. rewrite Hty in Hty'.
  repeat split; try done.
  apply Hok'; done.
Qed.

Lemma attempts_fail (os : OS) (rounds : nat) :
  always_fails os →
  ∀ j,
    JobConfig.status (config j) = RUNNING →
    JobConfig.type (config j) = LOCAL →
    is_Some (_local_process j) →
    JobConfig.success_func (config j) = None →
    (0 ≤ JobConfig.n_retries (config j))%Z →
    (JobConfig.n_retries (config j) + Z.of_nat rounds
     ≤ JobConfig.max_retries (config j))%Z →
    ∃ j',
      attempts os rounds j = (Return (), j') ∧
      JobConfig.status (config j') = RUNNING ∧
      JobConfig.type (config j') = LOCAL ∧
      is_Some (_local_process j') ∧
      JobConfig.success_func (config j') = None ∧
      JobConfig.n_retries (config j')
      = JobConfig.n_retries (config j) + Z.of_nat rounds ∧
      JobConfig.max_retries (config j') = JobConfig.max_retries (config j).
Proof.
  intros Hfail.
  induction rounds as [| rounds IH]; intros j Hs Hty Hp Hsf Hn Hroom.
  - exists j. simpl. rewrite Z.add_0_r. by repeat split.
  - destruct (attempt_fails os j Hfail Hs Hty Hp Hsf)
      as (j1 & Hr & Hs1 & Hty1 & Hp1 & Hsf1 & Hn1 & Hm1); [lia | lia |].
    destruct (IH j1 Hs1 Hty1 Hp1 Hsf1) as (j' & Hr' & Hrest); [lia | lia |].
    exists j'. simpl. unfold mbind, M_bind. rewrite Hr.
    split; [exact Hr' |].
    destruct Hrest as (? & ? & ? & ? & Hn' & Hm').
    rewrite Hn', Hm', Hn1, Hm1. repeat split; try done. lia.
Qed.

(** X23: a local job whose process fails at every attempt, driven by
    submit and then as many rounds of "evaluate, retry" as the budget
    allows.  After the last round it runs for the last time; the next
    evaluation finds it FAILED with the whole budget used, and a further
    automatic retry is refused and changes nothing. *)
Theorem failing_job_exhausts_budget (os : OS) (budget : nat) (j : Job) :
  always_fails os →
  JobConfig.status (config j) = CONFIGURED →
  JobConfig.type (config j) = LOCAL →
  JobConfig.success_func (config j) = None →
  JobConfig.n_retries (config j) = 0 →
  JobConfig.max_retries (config j) = Z.of_nat budget →
  let r := (submit;; attempts os budget;; get_status os false false) j in
  r.1 = Return FAILED ∧
  JobConfig.status (config r.2) = FAILED ∧
  JobConfig.n_retries (config r.2) = Z.of_nat budget ∧
  _retry os false true false None r.2 = (Return None, r.2).
Proof.
  intros Hfail Hs Hty Hsf Hn Hm. simpl. unfold mbind, M_bind.
  rewrite (submit_eq j Hs), Hty.
  match goal with |- context [attempts _ _ ?x] => set (j0 := x) end.
  destruct (attempts_fail os budget Hfail j0)
    as (j1 & -> & Hs1 & Hty1 & [p Hp1] & Hsf1 & Hn1 & Hm1);
    try done; try (by eexists); try (simpl; lia).
  simpl in Hn1, Hm1. rewrite Hn in Hn1. rewrite Hm in Hm1.
  destruct (Hfail (effects j1) p) as (code & Hpoll & Hcode).
  pose proof (get_status_local_exit os false j1 p code Hs1 Hty1 Hp1 Hsf1 Hpoll)
    as Hget.
  cbv zeta in Hget. rewrite (bool_decide_eq_false_2 _ Hcode) in Hget.
  rewrite Hget. simpl. rewrite Hn1. repeat split; try (f_equal; lia).
  apply retry_refused. intros [Hi | [_ Hlt]]; [discriminate Hi |].
  simpl in Hlt. lia.
Qed.

Lemma failing_job_exhausts_budget_witness :
  let j := example_job LOCAL CONFIGURED 2 0 in
  let r :=
    (submit;; attempts example_os 2;; get_status example_os false false) j in
  r.1 = Return FAILED ∧
  JobConfig.n_retries (config r.2) = 2 ∧
  _retry example_os false true false None r.2 = (Return None, r.2).
Proof.
  destruct (failing_job_exhausts_budget example_os 2
              (example_job LOCAL CONFIGURED 2 0))
    as (Hret & _ & Hn & Hrefused); try reflexivity.
  - intros past p. exists 1. by split.
  - split; [exact Hret | split; [exact Hn | exact Hrefused]].
Defined.

(** ** A local job and the backend *)

Lemma count_events_quiet (ev : Event) (past : list Event) :
  is_backend_call ev = false →
  count_events is_backend_call (ev :: past)
  = count_events is_backend_call past.
Proof.
  intros Hev. unfold count_events. rewrite filter_cons.
  by rewrite decide_False by (rewrite Hev; discriminate).
Qed.

Section Local.

Variable k : nat.

Lemma emit_local (ev : Event) :
  is_backend_call ev = false → preserves (local_with k) (emit ev).
Proof.
  intros Hev j [Hty Hk]. split; [exact Hty |].
  simpl. by rewrite count_events_quiet.
Qed.

Lemma set_local (f : JobConfig.t → JobConfig.t) :
  (∀ c, JobConfig.type c = LOCAL → JobConfig.type (f c) = LOCAL) →
  preserves (local_with k) (set f).
Proof. intros Hf j [Hty Hk]. split; [by apply Hf | exact Hk]. Qed.

Lemma set_local_process_local (p : option Popen) :
  preserves (local_with k) (set_local_process p).
Proof. by intros j Hj. Qed.

Ltac local :=
  repeat first
    [ solve [eauto 2]
    | apply preserves_bind; [| intros ?]
    | apply emit_local; reflexivity
    | apply set_local_process_local
    | apply set_local; let H := fresh in intros ? H; exact H
    | apply preserves_same; intros ?; reflexivity
    | match goal with
      | |- preserves _ (match ?x with _ => _ end) => destruct x
      | |- preserves _ (when ?x _) => destruct x
      end ].

Lemma submit_local : preserves (local_with k) submit.
Proof.
  intros j [Hty Hk].
  destruct (decide (JobConfig.status (config j) = CONFIGURED)) as [Hs | Hs].
  - rewrite (submit_eq j Hs), Hty. simpl.
    split; [done |]. simpl. by rewrite count_events_quiet.
  - by rewrite (submit_raises j Hs).
Qed.

Lemma cancel_local (clear_retry : bool) :
  preserves (local_with k) (cancel clear_retry).
Proof.
  intros j [Hty Hk]. unfold local_with in *. run.
  destruct (JobConfig.status (config j)) eqn:Hs; simpl; rewrite ?Hty; simpl;
    branches; simpl; by rewrite ?count_events_quiet.
Qed.

Lemma get_status_local (os : OS) (skip_eval force_success_check : bool) :
  preserves (local_with k) (get_status os skip_eval force_success_check).
Proof.
  intros j [Hty Hk]. destruct skip_eval; [done |].
  unfold local_with in *. run.
  destruct (JobConfig.status (config j)) eqn:Hs; simpl;
    repeat (first [progress rewrite Hty | case_match];
            simpl in *; simplify_eq; try congruence;
            try match goal with
                | H : bool_decide (JobConfig.type _ = LOCAL) = false |- _ =>
                    by rewrite Hty in H
                end);
    by rewrite ?count_events_quiet.
Qed.

Lemma update_snapshot_local (os : OS) :
  preserves (local_with k) (update_snapshot os).
Proof.
  pose proof (get_status_local os false false).
  unfold update_snapshot, track. local.
Qed.

Lemma reset_local (os : OS) (reset_retries : bool) :
  preserves (local_with k) (reset os reset_retries).
Proof.
  pose proof (update_snapshot_local os).
  unfold reset, ask. local.
Qed.

Lemma _retry_local (os : OS) (force submit_ ignore_max_retries : bool)
    (job_type : option JobType) :
  job_type ≠ Some BATCH →
  preserves (local_with k)
    (_retry os force submit_ ignore_max_retries job_type).
Proof.
  intros Hjt.
  pose proof (reset_local os false).
  pose proof (cancel_local false).
  pose proof submit_local.
  assert (preserves (local_with k)
            match job_type with
            | Some ty => set_type ty
            | None => mret ()
            end).
  { destruct job_type as [[] |]; [| done |].
    - unfold set_type. local. apply set_local. by intros.
    - by apply preserves_same. }
  unfold _retry, _do_retry. cbv zeta. local.
Qed.

Lemma perform_local (os : OS) (c : Call) :
  stays_local c = true → preserves (local_with k) (perform os c).
Proof.
  intros Hc.
  pose proof submit_local.
  pose proof cancel_local.
  pose proof (get_status_local os).
  pose proof (update_snapshot_local os).
  pose proof (reset_local os).
  destruct c; simpl in Hc; unfold perform, rerun, add_tag, add_tags;
    try (local; fail).
  - apply bool_decide_eq_true in Hc as ->.
    unfold set_type. local. apply set_local. by intros.
  - apply bool_decide_eq_true in Hc.
    pose proof (_retry_local os force submit_ ignore_max_retries job_type Hc).
    local.
  - apply bool_decide_eq_true in Hc.
    pose proof (_retry_local os true true true job_type Hc).
    local.
  - apply set_local. intros c Hty. by destruct is_parent.
  - apply set_local. intros c Hty.
    by destruct (add_tags_fields tags is_parent c)
      as (_ & _ & _ & _ & _ & _ & _ & -> & _).
Qed.

End Local.

(** X24: a local job never calls the backend.  As long as the driver does
    not make it a batch job, the job stays LOCAL and none of [submit()],
    [cancel()], [status()] and [exitcode()] of the backend is called,
    whatever else the driver calls. *)
Theorem local_job_never_calls_backend (os : OS) (calls : list Call)
    (j : Job) :
  JobConfig.type (config j) = LOCAL →
  forallb stays_local calls = true →
  JobConfig.type (config (drive os calls j)) = LOCAL ∧
  count_events is_backend_call (effects (drive os calls j))
  = count_events is_backend_call (effects j).
Proof.
  intros Hty Hcalls.
  cut (local_with (count_events is_backend_call (effects j))
         (drive os calls j)); [done |].
  assert (Hj : local_with (count_events is_backend_call (effects j)) j)
    by done.
  revert Hj. generalize (count_events is_backend_call (effects j)) as k.
  intros k. revert j Hty.
  induction calls as [| c calls IH]; intros j Hty Hj; simpl; [exact Hj |].
  simpl in Hcalls. apply andb_true_iff in Hcalls as [Hc Hrest].
  pose proof (perform_local k os c Hc j Hj) as Hj'.
  apply IH; [exact Hrest | apply Hj' | exact Hj'].
Qed.

Lemma local_job_never_calls_backend_witness :
  let calls :=
    [CallSubmit; CallGetStatus false false; CallRerun None;
     CallCancel true; CallReset true; CallSubmit; CallUpdateSnapshot] in
  let j := example_job LOCAL CONFIGURED 0 0 in
  JobConfig.type (config (drive example_os calls j)) = LOCAL ∧
  count_events is_backend_call (effects (drive example_os calls j)) = 0%nat.
Proof.
  apply (local_job_never_calls_backend example_os); reflexivity.
Defined.
